(** * encode_png_to_base64_json: a shallow embedding and its properties

    The script walks a directory, encodes every PNG it discovers as a
    base64 data URI and writes one JSON document.  The embedding below
    follows [encode_png_to_base64_json.py] function by function:

    - the file system is a snapshot tree whose child lists are kept in the
      order in which the operating system enumerates them; besides regular
      files and directories it has directories that cannot be listed and
      symbolic links whose target is missing;
    - [os.stat] on the input path finds a node, finds no entry, or fails
      with an error that [Path.exists] does not swallow;
    - a Python [str] is a [string] whose characters are code points below 256,
      compared lexicographically by code point as Python does;
    - exceptions are an error monad: [Err e] is an exception that propagates;
    - a Python [dict] is an association list in insertion order;
    - [main] returns the events it performed (lines printed, files written)
      together with the way it ended. *)

From Stdlib Require Import List Strings.String Strings.Ascii Strings.Byte.
From Stdlib Require Import NArith ZArith Arith Bool Lia.
From Stdlib Require Import DecimalString.
From Stdlib Require Import Sorting.Sorted Sorting.Permutation.
Import ListNotations.

Open Scope string_scope.

(** ** Exceptions *)

Inductive exn : Type :=
| IsADirectoryError (path : string)
| PermissionError (path : string)
| NotADirectoryError (path : string)
| FileNotFoundError (path : string)
| OSError (path : string).

Inductive res (A : Type) : Type :=
| Ok (a : A)
| Err (e : exn).

Arguments Ok {A} a.
Arguments Err {A} e.

Definition bind {A B : Type} (m : res A) (k : A -> res B) : res B :=
  match m with
  | Ok a => k a
  | Err e => Err e
  end.

Notation "x <- m ;; k" := (bind m (fun x => k))
  (at level 61, m at next level, right associativity).

(** ** The file-system snapshot *)

(** A regular file has a permission bit and its bytes; a directory lists its
    children in enumeration order.  A directory without read permission has
    children too, but no listing of it succeeds; a broken link is a symbolic
    link whose target is missing.  A symbolic link to a regular file stands
    as that file. *)
#[warnings="-register-all"] Inductive node : Type :=
| File (readable : bool) (content : list byte)
| Dir (entries : list (string * node))
| LockedDir (entries : list (string * node))
| BrokenLink.

(** A [Path] produced by [iterdir], [glob] or [rglob] is its base name paired
    with the node it denotes in the snapshot. *)
Definition path : Type := (string * node)%type.

Definition is_dir (p : path) : bool :=
  match snd p with
  | Dir _ | LockedDir _ => true
  | File _ _ | BrokenLink => false
  end.

(** [fnmatch(name, '*.png')] on a case-sensitive file system: the name ends
    with the four characters [.png]. *)
Definition is_png (name : string) : bool :=
  let n := String.length name in
  (4 <=? n)%nat && String.eqb (substring (n - 4) 4 name) ".png".

(** [dir_path.glob('*.png')]: the children whose name matches, whatever their
    kind, in enumeration order. *)
Definition glob_png (entries : list path) : list path :=
  filter (fun p => is_png (fst p)) entries.

(** [d.rglob('*.png')]: the matches of [d] itself, then those of every child
    directory, depth first.  The walk swallows the error of a directory it
    cannot list and yields nothing for it. *)
Fixpoint rglob_png (d : node) : list path :=
  match d with
  | Dir entries =>
      (glob_png entries ++ flat_map (fun p => rglob_png (snd p)) entries)%list
  | File _ _ | LockedDir _ | BrokenLink => []
  end.

(** ** base64.b64encode (RFC 4648, section 4) *)

Definition b64_alphabet : string :=
  "ABCDEFGHIJKLMNOPQRSTUVWXYZabcdefghijklmnopqrstuvwxyz0123456789+/".

Definition b64_pad : ascii := "="%char.

Definition b64_char (n : N) : ascii :=
  match String.get (N.to_nat n) b64_alphabet with
  | Some c => c
  | None => b64_pad
  end.

Definition sextet1 (a : N) : N := (a / 4)%N.
Definition sextet2 (a b : N) : N := ((a mod 4) * 16 + b / 16)%N.
Definition sextet3 (b c : N) : N := ((b mod 16) * 4 + c / 64)%N.
Definition sextet4 (c : N) : N := (c mod 64)%N.

Fixpoint b64encode (bs : list byte) : string :=
  match bs with
  | [] => EmptyString
  | [a] =>
      let a := Byte.to_N a in
      String (b64_char (sextet1 a))
        (String (b64_char (sextet2 a 0))
           (String b64_pad (String b64_pad EmptyString)))
  | [a; b] =>
      let a := Byte.to_N a in
      let b := Byte.to_N b in
      String (b64_char (sextet1 a))
        (String (b64_char (sextet2 a b))
           (String (b64_char (sextet3 b 0)) (String b64_pad EmptyString)))
  | a :: b :: c :: rest =>
      let a := Byte.to_N a in
      let b := Byte.to_N b in
      let c := Byte.to_N c in
      String (b64_char (sextet1 a))
        (String (b64_char (sextet2 a b))
           (String (b64_char (sextet3 b c))
              (String (b64_char (sextet4 c)) (b64encode rest))))
  end.

(** The inverse direction, used to state the round trip. *)
Definition b64_val (c : ascii) : option N :=
  let n := N_of_ascii c in
  if ((65 <=? n) && (n <=? 90))%N then Some (n - 65)%N
  else if ((97 <=? n) && (n <=? 122))%N then Some (n - 71)%N
  else if ((48 <=? n) && (n <=? 57))%N then Some (n + 4)%N
  else if (n =? 43)%N then Some 62%N
  else if (n =? 47)%N then Some 63%N
  else None.

Definition octet1 (v1 v2 : N) : N := (v1 * 4 + v2 / 16)%N.
Definition octet2 (v2 v3 : N) : N := ((v2 mod 16) * 16 + v3 / 4)%N.
Definition octet3 (v3 v4 : N) : N := ((v3 mod 4) * 64 + v4)%N.

Definition bytes_of (ns : list N) : option (list byte) :=
  fold_right
    (fun n acc =>
       match Byte.of_N n, acc with
       | Some b, Some bs => Some (b :: bs)
       | _, _ => None
       end)
    (Some []) ns.

Definition is_empty (s : string) : bool :=
  match s with
  | EmptyString => true
  | String _ _ => false
  end.

Fixpoint b64decode (s : string) : option (list byte) :=
  match s with
  | EmptyString => Some []
  | String c1 (String c2 (String c3 (String c4 rest))) =>
      match b64_val c1, b64_val c2 with
      | Some v1, Some v2 =>
          if Ascii.eqb c3 b64_pad then
            if Ascii.eqb c4 b64_pad && is_empty rest
            then bytes_of [octet1 v1 v2]
            else None
          else
            match b64_val c3 with
            | Some v3 =>
                if Ascii.eqb c4 b64_pad then
                  if is_empty rest
                  then bytes_of [octet1 v1 v2; octet2 v2 v3]
                  else None
                else
                  match b64_val c4, b64decode rest with
                  | Some v4, Some bs =>
                      match bytes_of [octet1 v1 v2; octet2 v2 v3; octet3 v3 v4] with
                      | Some g => Some (g ++ bs)%list
                      | None => None
                      end
                  | _, _ => None
                  end
            | None => None
            end
      | _, _ => None
      end
  | _ => None
  end.

(** ** encode_png_to_data_uri *)

Definition data_uri_prefix : string := "data:image/png;base64,".

(** [open(png_path, 'rb')] followed by [f.read()]. *)
Definition read_bytes (p : path) : res (list byte) :=
  match snd p with
  | File true content => Ok content
  | File false _ => Err (PermissionError (fst p))
  | Dir _ => Err (IsADirectoryError (fst p))
  | LockedDir _ => Err (PermissionError (fst p))
  | BrokenLink => Err (FileNotFoundError (fst p))
  end.

Definition encode_png_to_data_uri (png_path : path) : res string :=
  png_data <- read_bytes png_path ;;
  let b64_data := b64encode png_data in
  Ok (data_uri_prefix ++ b64_data).

(** Removing the fixed prefix of a data URI. *)
Fixpoint strip_prefix (pre s : string) : option string :=
  match pre, s with
  | EmptyString, _ => Some s
  | String a pre', String b s' =>
      if Ascii.eqb a b then strip_prefix pre' s' else None
  | String _ _, EmptyString => None
  end.

(** The characters a padded base64 text may contain. *)
Fixpoint is_b64_text (s : string) : bool :=
  match s with
  | EmptyString => true
  | String c s' =>
      (Ascii.eqb c b64_pad || match b64_val c with Some _ => true | None => false end)
      && is_b64_text s'
  end.

(** ** sorted and dict *)

(** [sorted(xs, key=...)] is a stable sort; insertion from the right keeps
    elements with equal keys in their original order, so the list computed
    here is the one any stable sort returns. *)
Fixpoint insert_by {A : Type} (key : A -> string) (x : A) (l : list A) : list A :=
  match l with
  | [] => [x]
  | y :: l' =>
      if String.leb (key x) (key y) then x :: y :: l'
      else y :: insert_by key x l'
  end.

Definition sorted_by {A : Type} (key : A -> string) (l : list A) : list A :=
  fold_right (insert_by key) [] l.

(** [d[k] = v]: an existing key keeps its position, a new key goes last. *)
Fixpoint dict_set {V : Type} (k : string) (v : V) (d : list (string * V))
  : list (string * V) :=
  match d with
  | [] => [(k, v)]
  | (k', v') :: d' =>
      if String.eqb k' k then (k', v) :: d'
      else (k', v') :: dict_set k v d'
  end.


Definition keys {V : Type} (d : list (string * V)) : list string := map fst d.

(** ** process_directory *)

Record Entry : Type := mkEntry { name : string; data : string }.

Inductive dir_result : Type :=
| RList (l : list Entry)
| RDict (d : list (string * list Entry)).

(** The list comprehension [[{'name': f.name, 'data': encode_png_to_data_uri(f)}
    for f in files]]: files are read in the order of [files], and the first
    failure propagates. *)
Fixpoint encode_entries (files : list path) : res (list Entry) :=
  match files with
  | [] => Ok []
  | f :: files' =>
      d <- encode_png_to_data_uri f ;;
      rest <- encode_entries files' ;;
      Ok (mkEntry (fst f) d :: rest)
  end.

Definition sorted_entries (files : list path) : res (list Entry) :=
  l <- encode_entries files ;;
  Ok (sorted_by name l).

Definition nonempty {A : Type} (l : list A) : bool :=
  match l with
  | [] => false
  | _ :: _ => true
  end.

(** [any(list(d.rglob('*.png')) for d in subdirs)] *)
Definition any_subdir_png (subdirs : list path) : bool :=
  existsb (fun d => nonempty (rglob_png (snd d))) subdirs.

(** The loop [for subdir in sorted(subdirs)], threading [result]. *)
Fixpoint nested_loop (subdirs : list path) (result : list (string * list Entry))
  : res (list (string * list Entry)) :=
  match subdirs with
  | [] => Ok result
  | subdir :: subdirs' =>
      let png_files := rglob_png (snd subdir) in
      if nonempty png_files then
        l <- sorted_entries png_files ;;
        nested_loop subdirs' (dict_set (fst subdir) l result)
      else nested_loop subdirs' result
  end.

Definition root_key : string := "_root".

Definition process_directory (directory : node) : res dir_result :=
  match directory with
  | File _ _ => Err (NotADirectoryError EmptyString)
  | LockedDir _ => Err (PermissionError EmptyString)
  | BrokenLink => Err (FileNotFoundError EmptyString)
  | Dir entries =>
      let subdirs := filter is_dir entries in
      let png_files_in_root := glob_png entries in
      if nonempty png_files_in_root && negb (any_subdir_png subdirs) then
        l <- sorted_entries png_files_in_root ;;
        Ok (RList l)
      else
        result <- nested_loop (sorted_by fst subdirs) [] ;;
        result <-
          (if nonempty png_files_in_root then
             l <- sorted_entries png_files_in_root ;;
             Ok (dict_set root_key l result)
           else Ok result) ;;
        Ok (if nonempty result then RDict result else RList [])
  end.

(** ** json.dump(output, f, indent=2) *)

#[warnings="-register-all"] Inductive json : Type :=
| JStr (s : string)
| JList (items : list json)
| JDict (members : list (string * json)).

Definition quote_char : ascii := "034"%char.
Definition backslash_char : ascii := "092"%char.
Definition newline_char : ascii := "010"%char.

Definition hex_digit (n : N) : ascii :=
  match String.get (N.to_nat n) "0123456789abcdef" with
  | Some c => c
  | None => "0"%char
  end.

Definition esc (c : ascii) : string :=
  String backslash_char (String c EmptyString).

(** The encoder escapes with [ensure_ascii=True]: the quote, the backslash and
    every character outside the range from space to tilde. *)
Definition json_escape_char (c : ascii) : string :=
  let n := N_of_ascii c in
  if (n =? 34)%N then esc quote_char
  else if (n =? 92)%N then esc backslash_char
  else if (n =? 10)%N then esc "n"
  else if (n =? 13)%N then esc "r"
  else if (n =? 9)%N then esc "t"
  else if (n =? 8)%N then esc "b"
  else if (n =? 12)%N then esc "f"
  else if ((32 <=? n) && (n <=? 126))%N then String c EmptyString
  else
    String backslash_char
      (String "u" (String "0" (String "0"
         (String (hex_digit (n / 16)) (String (hex_digit (n mod 16)) EmptyString))))).

Fixpoint json_escape (s : string) : string :=
  match s with
  | EmptyString => EmptyString
  | String c s' => json_escape_char c ++ json_escape s'
  end.

Definition json_string (s : string) : string :=
  String quote_char (json_escape s ++ String quote_char EmptyString).

Fixpoint spaces (n : nat) : string :=
  match n with
  | O => EmptyString
  | S n' => String " " (spaces n')
  end.

Definition newline_indent (level : nat) : string :=
  String newline_char (spaces (2 * level)).

Fixpoint join (sep : string) (l : list string) : string :=
  match l with
  | [] => EmptyString
  | [x] => x
  | x :: l' => x ++ sep ++ join sep l'
  end.

Fixpoint json_dumps (level : nat) (j : json) : string :=
  match j with
  | JStr s => json_string s
  | JList [] => "[]"
  | JList items =>
      "[" ++ newline_indent (S level)
          ++ join ("," ++ newline_indent (S level))
               (map (json_dumps (S level)) items)
          ++ newline_indent level ++ "]"
  | JDict [] => "{}"
  | JDict members =>
      "{" ++ newline_indent (S level)
          ++ join ("," ++ newline_indent (S level))
               (map (fun kv =>
                       match kv with
                       | (k, v) => json_string k ++ ": " ++ json_dumps (S level) v
                       end) members)
          ++ newline_indent level ++ "}"
  end.

Definition json_of_entry (e : Entry) : json :=
  JDict [("name", JStr (name e)); ("data", JStr (data e))].

Definition json_of_entries (l : list Entry) : json :=
  JList (map json_of_entry l).

Definition json_of_result (r : dir_result) : json :=
  match r with
  | RList l => json_of_entries l
  | RDict d => JDict (map (fun kv => (fst kv, json_of_entries (snd kv))) d)
  end.

(** ** Path(...).name *)

Fixpoint split_on (sep : ascii) (s : string) : list string :=
  match s with
  | EmptyString => [EmptyString]
  | String c s' =>
      if Ascii.eqb c sep then EmptyString :: split_on sep s'
      else
        match split_on sep s' with
        | [] => [String c EmptyString]
        | part :: parts => String c part :: parts
        end
  end.

(** The components of a POSIX path: empty components and [.] are dropped. *)
Definition path_parts (s : string) : list string :=
  filter (fun part => negb (is_empty part) && negb (String.eqb part "."))
    (split_on "/" s).

Definition path_name (s : string) : string :=
  last (path_parts s) EmptyString.

(** ** main *)

(** What [os.stat] answers for a path: an error that [Path.exists] and
    [Path.is_dir] swallow (no such entry), an error they let through (a name
    longer than the system allows, a parent that may not be searched), or the
    node found. *)
Inductive stat_result : Type :=
| NoEntry
| StatFailed
| Found (n : node).

(** [writable] tells whether the output can be opened for writing and the
    document written in full.  A [WriteFile] event stands for a complete
    document; when the write fails the exception is all that is recorded, and
    the events do not say whether the file was created or emptied before the
    failure. *)
Record world : Type := mkWorld {
  stat : string -> stat_result;
  writable : string -> bool
}.

(** The node a path leads to, if [os.stat] finds one. *)
Definition resolve (w : world) (p : string) : option node :=
  match stat w p with
  | Found n => Some n
  | NoEntry | StatFailed => None
  end.

Inductive event : Type :=
| Print (line : string)
| WriteFile (file : string) (text : string).

Inductive outcome : Type :=
| Returned
| Raised (e : exn).

Definition string_of_nat (n : nat) : string :=
  NilEmpty.string_of_uint (Nat.to_uint n).

(** [len(png_data) if isinstance(png_data, list)
     else sum(len(v) for v in png_data.values())] *)
Definition file_count (r : dir_result) : nat :=
  match r with
  | RList l => List.length l
  | RDict d => fold_right (fun kv acc => List.length (snd kv) + acc) 0 d
  end.

Definition output_document (directory : string) (png_data : dir_result) : json :=
  JDict [(path_name directory, json_of_result png_data)].

(** [dir_path.exists()] and [dir_path.is_dir()]: both follow links, both let
    an error of [os.stat] through unless it says that there is no such
    entry. *)
Definition path_exists (w : world) (directory : string) : res bool :=
  match stat w directory with
  | StatFailed => Err (OSError directory)
  | NoEntry | Found BrokenLink => Ok false
  | Found _ => Ok true
  end.

Definition path_is_dir (w : world) (directory : string) : res bool :=
  match stat w directory with
  | StatFailed => Err (OSError directory)
  | Found (Dir _) | Found (LockedDir _) => Ok true
  | _ => Ok false
  end.

(** The body of [main], with the scanner it calls on line 65 as a
    parameter. *)
Definition main_with (scan : node -> res dir_result)
           (w : world) (directory output : string) : list event * outcome :=
  match path_exists w directory with
  | Err e => ([], Raised e)
  | Ok false =>
      ([Print ("Error: Directory '" ++ directory ++ "' does not exist")], Returned)
  | Ok true =>
      match path_is_dir w directory with
      | Err e => ([], Raised e)
      | Ok false =>
          ([Print ("Error: '" ++ directory ++ "' is not a directory")], Returned)
      | Ok true =>
          match
            match stat w directory with
            | Found d => scan d
            | NoEntry | StatFailed => Err (FileNotFoundError directory)
            end
          with
          | Err e => ([], Raised e)
          | Ok png_data =>
              if writable w output then
                ([WriteFile output
                    (json_dumps 0 (output_document directory png_data));
                  Print ("Processed " ++ string_of_nat (file_count png_data)
                           ++ " PNG files to " ++ output)],
                 Returned)
              else ([], Raised (OSError output))
          end
      end
  end.

Definition main (w : world) (directory output : string) : list event * outcome :=
  main_with process_directory w directory output.

Definition writes (evs : list event) : list (string * string) :=
  flat_map (fun ev =>
              match ev with
              | WriteFile f t => [(f, t)]
              | Print _ => []
              end) evs.

(** ** Vocabulary of the statements *)

(** The check run over the 64 alphabet positions. *)
Definition b64_char_ok (n : N) : bool :=
  match b64_val (b64_char n) with
  | Some m => (m =? n)%N && negb (Ascii.eqb (b64_char n) b64_pad)
  | None => false
  end.

(** A path that [open(..., 'rb')] and [read()] accept. *)
Definition readable (p : path) : bool :=
  match snd p with
  | File true _ => true
  | _ => false
  end.

Definition content_of (p : path) : list byte :=
  match snd p with
  | File _ content => content
  | Dir _ | LockedDir _ | BrokenLink => []
  end.

(** The Entry built from a readable file. *)
Definition entry_of (p : path) : Entry :=
  mkEntry (fst p) (data_uri_prefix ++ b64encode (content_of p)).

Definition has_png (d : path) : bool := nonempty (rglob_png (snd d)).

(** The test of the flat case, as [process_directory] evaluates it. *)
Definition flat_case (entries : list path) : bool :=
  nonempty (glob_png entries) && negb (any_subdir_png (filter is_dir entries)).

(** The paths [process_directory] discovers: the matches of the root and the
    matches beneath each immediate subdirectory. *)
Definition discovered (entries : list path) (p : path) : Prop :=
  In p (glob_png entries) \/
  exists d, In d entries /\ is_dir d = true /\ In p (rglob_png (snd d)).

Definition str_le (a b : string) : Prop := String.leb a b = true.

Definition key_le {A : Type} (key : A -> string) (x y : A) : Prop :=
  str_le (key x) (key y).

(** The bucket of an immediate subdirectory in the nested result. *)
Definition bucket_of (d : path) : string * list Entry :=
  (fst d, sorted_by name (map entry_of (rglob_png (snd d)))).

Definition root_bucket (entries : list path) : list Entry :=
  sorted_by name (map entry_of (glob_png entries)).

(** [beneath d p]: the path [p] lies in the subtree of [d], at any depth. *)
Inductive beneath : node -> path -> Prop :=
| beneath_child entries p :
    In p entries -> beneath (Dir entries) p
| beneath_deeper entries child p :
    In child entries -> beneath (snd child) p -> beneath (Dir entries) p.


(** ** Sample snapshots *)

Definition png (s : string) : node := File true (list_byte_of_string s).

Definition world_of (directory : string) (entries : list path) : world :=
  mkWorld
    (fun p => if String.eqb p directory then Found (Dir entries) else NoEntry)
    (fun _ => true).

Fixpoint repeat_char (c : ascii) (n : nat) : string :=
  match n with
  | O => EmptyString
  | S n' => String c (repeat_char c n')
  end.

(** A name of 300 characters, and a file system without entries on which a
    name of more than 255 characters cannot be queried. *)
Definition long_name : string := repeat_char "a" 300.

Definition strict_world : world :=
  mkWorld
    (fun p => if (255 <? String.length p)%nat then StatFailed else NoEntry)
    (fun _ => true).

Definition flat_tree : list path :=
  [("b.png", png "B"); ("a.png", png "A"); ("notes.txt", png "n");
   ("empty", Dir [])].

Definition nested_tree : list path :=
  [("sub", Dir [("x.png", png "X")]); ("r.png", png "R")].


Definition locked_tree : list path :=
  [("a.png", png "A"); ("b.png", File false [])].

Definition png_dir_tree : list path :=
  [("a.png", png "A"); ("shots.png", Dir [])].


(** ** Enumeration order *)

(** The listing of every directory put in ascending order of name: two
    snapshots hold the same tree, enumerated in possibly different orders,
    when this makes them equal. *)
Fixpoint canon (n : node) : node :=
  match n with
  | File r c => File r c
  | Dir entries =>
      Dir (sorted_by fst (map (fun p => (fst p, canon (snd p))) entries))
  | LockedDir entries =>
      LockedDir (sorted_by fst (map (fun p => (fst p, canon (snd p))) entries))
  | BrokenLink => BrokenLink
  end.

Definition canon_entry (p : path) : path := (fst p, canon (snd p)).

Definition same_contents (entries1 entries2 : list path) : Prop :=
  canon (Dir entries1) = canon (Dir entries2).

(** No two children of the root share a name, and no two PNG paths beneath
    one immediate subdirectory share a base name. *)
Definition distinct_names (entries : list path) : Prop :=
  NoDup (map fst entries) /\
  (forall sub, In sub entries -> is_dir sub = true ->
               NoDup (map fst (rglob_png (snd sub)))).

(** What reading a path can observe of it. *)
Definition item (p : path) : string * (bool * list byte) :=
  (fst p, (readable p, content_of p)).

Definition entry_of_item (i : string * (bool * list byte)) : Entry :=
  mkEntry (fst i) (data_uri_prefix ++ b64encode (snd (snd i))).

(** The result of a computation with the exception forgotten. *)
Definition erase {A : Type} (r : res A) : option A :=
  match r with
  | Ok a => Some a
  | Err _ => None
  end.

Definition twins_ab : list path :=
  [("sub", Dir [("a", Dir [("x.png", png "A")]);
                ("b", Dir [("x.png", png "B")])])].

Definition twins_ba : list path :=
  [("sub", Dir [("b", Dir [("x.png", png "B")]);
                ("a", Dir [("x.png", png "A")])])].

Definition nested_tree_reordered : list path :=
  [("r.png", png "R"); ("sub", Dir [("x.png", png "X")])].

(** ** Views of a result *)

(** All entries of a result, bucket after bucket. *)
Definition entries_of_result (r : dir_result) : list Entry :=
  match r with
  | RList l => l
  | RDict d => flat_map snd d
  end.



(** ** Pruning *)

(** The snapshot without its regular files whose name does not end in
    [.png], at every depth. *)
Definition is_file (p : path) : bool :=
  match snd p with
  | File _ _ => true
  | Dir _ | LockedDir _ | BrokenLink => false
  end.

Fixpoint prune (n : node) : node :=
  match n with
  | File r c => File r c
  | Dir entries =>
      Dir (flat_map
             (fun p =>
                if is_png (fst p) || negb (is_file p)
                then [(fst p, prune (snd p))]
                else [])
             entries)
  | LockedDir entries =>
      LockedDir (flat_map
                   (fun p =>
                      if is_png (fst p) || negb (is_file p)
                      then [(fst p, prune (snd p))]
                      else [])
                   entries)
  | BrokenLink => BrokenLink
  end.

Definition prune_entry (p : path) : path := (fst p, prune (snd p)).


Definition cluttered_tree : list path :=
  [("sub", Dir [("x.png", png "X"); ("readme.md", File false [])]);
   ("notes.txt", png "n"); ("r.png", png "R"); ("empty", Dir [])].

(** ** Texts *)

Fixpoint mem_char (c : ascii) (s : string) : bool :=
  match s with
  | EmptyString => false
  | String c' s' => Ascii.eqb c' c || mem_char c s'
  end.

(** Printable ASCII, or the line feed the indentation uses. *)
Definition printable_char (c : ascii) : bool :=
  let n := N_of_ascii c in
  (n =? 10)%N || ((32 <=? n) && (n <=? 126))%N.

Fixpoint printable (s : string) : bool :=
  match s with
  | EmptyString => true
  | String c s' => printable_char c && printable s'
  end.

(** Reading an escaped JSON string back. *)
Definition hex_val (c : ascii) : option N :=
  let n := N_of_ascii c in
  if ((48 <=? n) && (n <=? 57))%N then Some (n - 48)%N
  else if ((97 <=? n) && (n <=? 102))%N then Some (n - 87)%N
  else None.

Definition simple_escape (k : ascii) : option ascii :=
  let n := N_of_ascii k in
  if (n =? 34)%N then Some quote_char
  else if (n =? 92)%N then Some backslash_char
  else if (n =? 110)%N then Some "010"%char
  else if (n =? 114)%N then Some "013"%char
  else if (n =? 116)%N then Some "009"%char
  else if (n =? 98)%N then Some "008"%char
  else if (n =? 102)%N then Some "012"%char
  else None.

Fixpoint json_unescape (s : string) : option string :=
  match s with
  | EmptyString => Some EmptyString
  | String c rest =>
      if Ascii.eqb c backslash_char then
        match rest with
        | EmptyString => None
        | String k rest1 =>
            if Ascii.eqb k "u" then
              match rest1 with
              | String h1 (String h2 (String h3 (String h4 rest2))) =>
                  match hex_val h1, hex_val h2, hex_val h3, hex_val h4,
                        json_unescape rest2 with
                  | Some d1, Some d2, Some d3, Some d4, Some t =>
                      Some (String
                              (ascii_of_N (((d1 * 16 + d2) * 16 + d3) * 16 + d4))
                              t)
                  | _, _, _, _, _ => None
                  end
              | _ => None
              end
            else
              match simple_escape k, json_unescape rest1 with
              | Some c', Some t => Some (String c' t)
              | _, _ => None
              end
        end
      else
        match json_unescape rest with
        | Some t => Some (String c t)
        | None => None
        end
  end.

(** Texts made of slashes and single dots only, such as [.], [/] and [./]:
    they name no component. *)
Inductive no_component : string -> Prop :=
| nc_empty : no_component EmptyString
| nc_dot : no_component "."
| nc_slash t : no_component t -> no_component (String "/" t)
| nc_dot_slash t : no_component t -> no_component (String "." (String "/" t)).

(** * Properties *)

(** ** Base64 *)

Ltac euclid := zify; Z.to_euclidean_division_equations; lia.

Lemma sextet_bounds (a b c : N) :
  (a < 256 -> b < 256 -> c < 256 ->
   sextet1 a < 64 /\ sextet2 a b < 64 /\ sextet3 b c < 64 /\ sextet4 c < 64)%N.
Proof.
  unfold sextet1, sextet2, sextet3, sextet4. intros Ha Hb Hc.
  repeat split; euclid.
Qed.

Lemma octets_of_sextets (a b c : N) :
  (a < 256 -> b < 256 -> c < 256 ->
   octet1 (sextet1 a) (sextet2 a b) = a /\
   octet2 (sextet2 a b) (sextet3 b c) = b /\
   octet3 (sextet3 b c) (sextet4 c) = c)%N.
Proof.
  unfold octet1, octet2, octet3, sextet1, sextet2, sextet3, sextet4.
  intros Ha Hb Hc. repeat split; euclid.
Qed.

Lemma b64_char_table :
  forallb b64_char_ok (map N.of_nat (seq 0 64)) = true.
Proof. vm_compute. reflexivity. Qed.

Lemma b64_char_spec (n : N) :
  (n < 64)%N ->
  b64_val (b64_char n) = Some n /\ Ascii.eqb (b64_char n) b64_pad = false.
Proof.
  intros Hn.
  assert (Hin : In n (map N.of_nat (seq 0 64))).
  { rewrite <- (N2Nat.id n). apply in_map. apply in_seq. lia. }
  pose proof (proj1 (forallb_forall _ _) b64_char_table n Hin) as H.
  unfold b64_char_ok in H.
  destruct (b64_val (b64_char n)) as [m|]; [|discriminate].
  apply andb_true_iff in H. destruct H as [Hm Hp].
  apply N.eqb_eq in Hm. subst m. split; [reflexivity|].
  now apply negb_true_iff.
Qed.

Lemma byte_lt_256 (b : byte) : (Byte.to_N b < 256)%N.
Proof. pose proof (Byte.to_N_bounded b). lia. Qed.

(** Lists are consumed three bytes at a time. *)
Lemma list_ind3 {A : Type} (P : list A -> Prop) :
  P [] ->
  (forall a, P [a]) ->
  (forall a b, P [a; b]) ->
  (forall a b c l, P l -> P (a :: b :: c :: l)) ->
  forall l, P l.
Proof.
  intros H0 H1 H2 H3.
  fix IH 1.
  intros [|a [|b [|c l]]]; [exact H0 | apply H1 | apply H2 | apply H3, IH].
Qed.

Lemma b64decode_b64encode (bs : list byte) :
  b64decode (b64encode bs) = Some bs.
Proof.
  induction bs as [|a|a b|a b c l IH] using list_ind3.
  - reflexivity.
  - pose proof (byte_lt_256 a) as Ha.
    destruct (sextet_bounds _ 0 0 Ha eq_refl eq_refl) as (B1 & B2 & _ & _).
    destruct (octets_of_sextets _ 0 0 Ha eq_refl eq_refl) as (O1 & _ & _).
    cbn [b64encode b64decode].
    rewrite (proj1 (b64_char_spec _ B1)), (proj1 (b64_char_spec _ B2)).
    cbn. rewrite O1, Byte.of_to_N. reflexivity.
  - pose proof (byte_lt_256 a) as Ha. pose proof (byte_lt_256 b) as Hb.
    destruct (sextet_bounds _ _ 0 Ha Hb eq_refl) as (B1 & B2 & B3 & _).
    destruct (octets_of_sextets _ _ 0 Ha Hb eq_refl) as (O1 & O2 & _).
    cbn [b64encode b64decode].
    rewrite (proj1 (b64_char_spec _ B1)), (proj1 (b64_char_spec _ B2)).
    rewrite (proj2 (b64_char_spec _ B3)), (proj1 (b64_char_spec _ B3)).
    cbn. rewrite O1, O2, !Byte.of_to_N. reflexivity.
  - pose proof (byte_lt_256 a) as Ha. pose proof (byte_lt_256 b) as Hb.
    pose proof (byte_lt_256 c) as Hc.
    destruct (sextet_bounds _ _ _ Ha Hb Hc) as (B1 & B2 & B3 & B4).
    destruct (octets_of_sextets _ _ _ Ha Hb Hc) as (O1 & O2 & O3).
    cbn [b64encode b64decode].
    rewrite (proj1 (b64_char_spec _ B1)), (proj1 (b64_char_spec _ B2)).
    rewrite (proj2 (b64_char_spec _ B3)), (proj1 (b64_char_spec _ B3)).
    rewrite (proj2 (b64_char_spec _ B4)), (proj1 (b64_char_spec _ B4)).
    rewrite IH. cbn. rewrite O1, O2, O3, !Byte.of_to_N. reflexivity.
Qed.

Lemma b64encode_length (bs : list byte) :
  String.length (b64encode bs) = 4 * ((List.length bs + 2) / 3).
Proof.
  induction bs as [|a|a b|a b c l IH] using list_ind3; try reflexivity.
  cbn [b64encode String.length List.length]. rewrite IH.
  replace (S (S (S (List.length l))) + 2) with (List.length l + 2 + 1 * 3) by lia.
  rewrite Nat.div_add by lia. lia.
Qed.

Lemma b64_char_text (n : N) (s : string) :
  (n < 64)%N -> is_b64_text s = true -> is_b64_text (String (b64_char n) s) = true.
Proof.
  intros Hn Hs. cbn [is_b64_text].
  rewrite (proj1 (b64_char_spec _ Hn)), Hs. now rewrite orb_true_r.
Qed.

Lemma b64encode_text (bs : list byte) : is_b64_text (b64encode bs) = true.
Proof.
  induction bs as [|a|a b|a b c l IH] using list_ind3.
  - reflexivity.
  - pose proof (byte_lt_256 a) as Ha.
    destruct (sextet_bounds _ 0 0 Ha eq_refl eq_refl) as (B1 & B2 & _ & _).
    cbn [b64encode]. repeat (apply b64_char_text; [assumption|]). reflexivity.
  - pose proof (byte_lt_256 a) as Ha. pose proof (byte_lt_256 b) as Hb.
    destruct (sextet_bounds _ _ 0 Ha Hb eq_refl) as (B1 & B2 & B3 & _).
    cbn [b64encode]. repeat (apply b64_char_text; [assumption|]). reflexivity.
  - pose proof (byte_lt_256 a) as Ha. pose proof (byte_lt_256 b) as Hb.
    pose proof (byte_lt_256 c) as Hc.
    destruct (sextet_bounds _ _ _ Ha Hb Hc) as (B1 & B2 & B3 & B4).
    cbn [b64encode]. repeat (apply b64_char_text; [assumption|]). exact IH.
Qed.

Lemma strip_prefix_app (pre s : string) : strip_prefix pre (pre ++ s) = Some s.
Proof.
  induction pre as [|a pre IH]; cbn.
  - now destruct s.
  - now rewrite Ascii.eqb_refl.
Qed.

(** C4 - For a readable file, [encode_png_to_data_uri] returns the fixed
    prefix [data:image/png;base64,] followed by the padded standard-alphabet
    base64 text of the whole content: its length is four characters per
    started group of three bytes, it only holds alphabet and padding
    characters, and removing the prefix and decoding gives the content back
    byte for byte. *)
Theorem encode_png_to_data_uri_roundtrip (fname : string) (content : list byte) :
  exists payload,
    encode_png_to_data_uri (fname, File true content)
      = Ok (data_uri_prefix ++ payload) /\
    payload = b64encode content /\
    String.length payload = 4 * ((List.length content + 2) / 3) /\
    is_b64_text payload = true /\
    strip_prefix data_uri_prefix (data_uri_prefix ++ payload) = Some payload /\
    b64decode payload = Some content.
Proof.
  exists (b64encode content).
  split; [reflexivity|]. split; [reflexivity|].
  split; [apply b64encode_length|]. split; [apply b64encode_text|].
  split; [apply strip_prefix_app | apply b64decode_b64encode].
Qed.

(** ** The order on names *)

Lemma ascii_compare_lt_trans (a b c : ascii) :
  Ascii.compare a b = Lt -> Ascii.compare b c = Lt -> Ascii.compare a c = Lt.
Proof.
  unfold Ascii.compare. rewrite !N.compare_lt_iff. lia.
Qed.

Lemma string_compare_refl (s : string) : String.compare s s = Eq.
Proof.
  induction s as [|a s IH]; cbn; [reflexivity|].
  unfold Ascii.compare. now rewrite N.compare_refl.
Qed.

Lemma string_compare_lt_trans (s1 : string) :
  forall s2 s3,
    String.compare s1 s2 = Lt -> String.compare s2 s3 = Lt ->
    String.compare s1 s3 = Lt.
Proof.
  induction s1 as [|a s1 IH]; intros [|b s2] [|c s3]; cbn; try congruence.
  destruct (Ascii.compare a b) eqn:Hab; try discriminate;
    destruct (Ascii.compare b c) eqn:Hbc; try discriminate; intros H12 H23.
  - apply Ascii.compare_eq_iff in Hab, Hbc. subst.
    replace (Ascii.compare c c) with Eq; [eauto|].
    symmetry. unfold Ascii.compare. apply N.compare_refl.
  - apply Ascii.compare_eq_iff in Hab. subst. now rewrite Hbc.
  - apply Ascii.compare_eq_iff in Hbc. subst. now rewrite Hab.
  - now rewrite (ascii_compare_lt_trans _ _ _ Hab Hbc).
Qed.

Lemma str_le_refl (s : string) : str_le s s.
Proof. unfold str_le, String.leb. now rewrite string_compare_refl. Qed.

Lemma str_le_trans (s1 s2 s3 : string) :
  str_le s1 s2 -> str_le s2 s3 -> str_le s1 s3.
Proof.
  unfold str_le, String.leb.
  destruct (String.compare s1 s2) eqn:H12; try discriminate;
    destruct (String.compare s2 s3) eqn:H23; try discriminate; intros _ _.
  - apply String.compare_eq_iff in H12, H23. subst. now rewrite string_compare_refl.
  - apply String.compare_eq_iff in H12. subst. now rewrite H23.
  - apply String.compare_eq_iff in H23. subst. now rewrite H12.
  - now rewrite (string_compare_lt_trans _ _ _ H12 H23).
Qed.

Lemma str_le_antisym (s1 s2 : string) : str_le s1 s2 -> str_le s2 s1 -> s1 = s2.
Proof. apply String.leb_antisym. Qed.

Lemma leb_false_flip (s1 s2 : string) :
  String.leb s1 s2 = false -> str_le s2 s1.
Proof.
  unfold str_le. intros H.
  destruct (String.leb_total s1 s2) as [H'|H']; congruence.
Qed.

(** ** sorted *)

Section Sorting.
Context {A : Type} (key : A -> string).

Lemma insert_by_perm (x : A) (l : list A) :
  Permutation (insert_by key x l) (x :: l).
Proof.
  induction l as [|y l IH]; cbn; [reflexivity|].
  destruct (String.leb (key x) (key y)); [reflexivity|].
  rewrite IH. apply perm_swap.
Qed.

Lemma sorted_by_perm (l : list A) : Permutation (sorted_by key l) l.
Proof.
  induction l as [|x l IH]; cbn; [reflexivity|].
  fold (sorted_by key l). rewrite insert_by_perm. now constructor.
Qed.

Lemma insert_by_sorted (x : A) (l : list A) :
  StronglySorted (key_le key) l ->
  StronglySorted (key_le key) (insert_by key x l).
Proof.
  induction 1 as [|y l Hl IH Hy]; cbn.
  - repeat constructor.
  - destruct (String.leb (key x) (key y)) eqn:Hxy.
    + constructor; [now constructor|].
      constructor; [exact Hxy|].
      eapply Forall_impl; [|exact Hy].
      intros z Hz. eapply str_le_trans; [exact Hxy | exact Hz].
    + constructor; [exact IH|].
      eapply Permutation_Forall; [symmetry; apply insert_by_perm|].
      constructor; [now apply leb_false_flip | exact Hy].
Qed.

Lemma sorted_by_sorted (l : list A) :
  StronglySorted (key_le key) (sorted_by key l).
Proof.
  induction l as [|x l IH]; cbn; [constructor|].
  now apply insert_by_sorted.
Qed.

(** Two sorted arrangements of the same elements coincide when no two
    elements share a key. *)
Lemma sorted_unique (l1 : list A) :
  forall l2,
    StronglySorted (key_le key) l1 ->
    StronglySorted (key_le key) l2 ->
    Permutation l1 l2 ->
    NoDup (map key l1) ->
    l1 = l2.
Proof.
  induction l1 as [|x l1 IH]; intros l2 S1 S2 HP ND.
  - apply Permutation_nil in HP. now subst.
  - destruct l2 as [|y l2].
    { symmetry in HP. now apply Permutation_nil in HP. }
    inversion S1 as [|? ? S1' F1]; subst.
    inversion S2 as [|? ? S2' F2]; subst.
    inversion ND as [|? ? Hx ND']; subst.
    assert (Hxy : x = y).
    { assert (Hin : In x (y :: l2))
        by (eapply Permutation_in; [exact HP | now left]).
      destruct Hin as [->|Hin]; [reflexivity|].
      assert (Hin' : In y (x :: l1))
        by (eapply Permutation_in; [symmetry; exact HP | now left]).
      destruct Hin' as [->|Hin']; [reflexivity|].
      exfalso. apply Hx.
      rewrite Forall_forall in F1, F2.
      rewrite (str_le_antisym _ _ (F1 _ Hin') (F2 _ Hin)).
      now apply in_map. }
    subst y. f_equal.
    apply IH; auto. eapply Permutation_cons_inv; exact HP.
Qed.

Lemma sorted_by_perm_eq (l1 l2 : list A) :
  Permutation l1 l2 -> NoDup (map key l1) ->
  sorted_by key l1 = sorted_by key l2.
Proof.
  intros HP ND. apply sorted_unique; try apply sorted_by_sorted.
  - rewrite !sorted_by_perm. exact HP.
  - eapply Permutation_NoDup; [|exact ND].
    apply Permutation_map. symmetry. apply sorted_by_perm.
Qed.

Lemma sorted_by_in (x : A) (l : list A) : In x (sorted_by key l) <-> In x l.
Proof.
  split; apply Permutation_in; [|symmetry]; apply sorted_by_perm.
Qed.
End Sorting.

(** ** Scanning *)

Lemma node_ind' (P : node -> Prop) :
  (forall r c, P (File r c)) ->
  (forall entries, Forall (fun p => P (snd p)) entries -> P (Dir entries)) ->
  (forall entries, Forall (fun p => P (snd p)) entries -> P (LockedDir entries)) ->
  P BrokenLink ->
  forall n, P n.
Proof.
  intros HF HD HL HB. fix IH 1.
  intros [r c|entries|entries|]; [apply HF|apply HD|apply HL|exact HB];
    (induction entries as [|[k n] entries IHe]; constructor;
     [apply IH | exact IHe]).
Qed.

Lemma glob_png_in (entries : list path) (p : path) :
  In p (glob_png entries) <-> In p entries /\ is_png (fst p) = true.
Proof. unfold glob_png. apply filter_In. Qed.

(** [rglob] finds exactly the matching paths of the subtree. *)
Lemma rglob_png_in (d : node) :
  forall p, In p (rglob_png d) <-> beneath d p /\ is_png (fst p) = true.
Proof.
  induction d as [r c|entries IH|entries _|] using node_ind'; intros p;
    cbn [rglob_png];
    try (split; [intros []|]; intros [H _]; inversion H).
  - rewrite Forall_forall in IH.
    rewrite in_app_iff, glob_png_in, in_flat_map. split.
    + intros [[Hin Hp]|(child & Hin & Hp)].
      * split; [now apply beneath_child | exact Hp].
      * apply (IH _ Hin) in Hp. destruct Hp as [Hb Hp].
        split; [eapply beneath_deeper; eauto | exact Hp].
    + intros [Hb Hp]. inversion Hb as [? ? Hin|? child ? Hin Hb']; subst.
      * left. now split.
      * right. exists child. split; [exact Hin|]. apply (IH _ Hin). now split.
Qed.

Lemma nonempty_false {A : Type} (l : list A) : nonempty l = false <-> l = [].
Proof. destruct l; cbn; split; congruence. Qed.

Lemma nonempty_true {A : Type} (l : list A) : nonempty l = true <-> l <> [].
Proof. destruct l; cbn; split; congruence. Qed.

Lemma any_subdir_png_false (entries : list path) :
  any_subdir_png (filter is_dir entries) = false <->
  (forall d, In d entries -> is_dir d = true -> rglob_png (snd d) = []).
Proof.
  unfold any_subdir_png. split.
  - intros H d Hin Hd. apply nonempty_false.
    destruct (nonempty (rglob_png (snd d))) eqn:E; [|reflexivity].
    assert (existsb (fun d => nonempty (rglob_png (snd d))) (filter is_dir entries)
            = true); [|congruence].
    apply existsb_exists. exists d. split; [|exact E].
    apply filter_In. now split.
  - intros H. apply not_true_is_false. intros E.
    apply existsb_exists in E. destruct E as (d & Hin & Hd).
    apply filter_In in Hin. destruct Hin as [Hin Hdir].
    rewrite (H d Hin Hdir) in Hd. discriminate.
Qed.

(** ** Reading and encoding *)

Lemma read_bytes_readable (p : path) :
  readable p = true -> read_bytes p = Ok (content_of p).
Proof.
  unfold readable, read_bytes, content_of.
  destruct (snd p) as [[|] c| | |]; congruence.
Qed.

Lemma read_bytes_unreadable (p : path) :
  readable p = false -> exists e, read_bytes p = Err e.
Proof.
  unfold readable, read_bytes.
  destruct (snd p) as [[|] c| | |]; try discriminate; eauto.
Qed.

Lemma read_bytes_err_unreadable (p : path) (e : exn) :
  read_bytes p = Err e -> readable p = false.
Proof.
  unfold readable, read_bytes.
  destruct (snd p) as [[|] c| | |]; congruence.
Qed.

Lemma encode_entries_ok (files : list path) :
  forallb readable files = true ->
  encode_entries files = Ok (map entry_of files).
Proof.
  induction files as [|f files IH]; cbn; [reflexivity|].
  intros H. apply andb_true_iff in H. destruct H as [Hf Hfs].
  unfold encode_png_to_data_uri. rewrite (read_bytes_readable _ Hf). cbn.
  now rewrite (IH Hfs).
Qed.

(** The first failing read is the result: nothing is skipped. *)
Lemma encode_entries_err (files : list path) (p : path) :
  In p files -> readable p = false ->
  exists e, encode_entries files = Err e.
Proof.
  induction files as [|f files IH]; [intros []|].
  intros Hin Hp. cbn. unfold encode_png_to_data_uri.
  destruct (read_bytes f) as [c|e] eqn:Hf; cbn; [|eauto].
  destruct Hin as [->|Hin].
  - apply read_bytes_unreadable in Hp. destruct Hp as [e He]. congruence.
  - destruct (IH Hin Hp) as [e He]. rewrite He. cbn. eauto.
Qed.

Lemma encode_entries_err_inv (files : list path) (e : exn) :
  encode_entries files = Err e ->
  exists q, In q files /\ read_bytes q = Err e.
Proof.
  induction files as [|f files IH]; cbn; [discriminate|].
  unfold encode_png_to_data_uri.
  destruct (read_bytes f) as [c|e'] eqn:Hf; cbn.
  - destruct (encode_entries files) as [l|e'']; cbn; [discriminate|].
    intros [= ->]. destruct (IH eq_refl) as (q & Hq & Hr). eauto.
  - intros [= ->]. eauto.
Qed.

Lemma sorted_entries_ok (files : list path) :
  forallb readable files = true ->
  sorted_entries files = Ok (sorted_by name (map entry_of files)).
Proof.
  intros H. unfold sorted_entries. now rewrite (encode_entries_ok _ H).
Qed.

Lemma sorted_entries_err (files : list path) (p : path) :
  In p files -> readable p = false ->
  exists e, sorted_entries files = Err e.
Proof.
  intros Hin Hp. unfold sorted_entries.
  destruct (encode_entries_err _ _ Hin Hp) as [e He]. rewrite He. cbn. eauto.
Qed.

Lemma sorted_entries_err_inv (files : list path) (e : exn) :
  sorted_entries files = Err e ->
  exists q, In q files /\ read_bytes q = Err e.
Proof.
  unfold sorted_entries.
  destruct (encode_entries files) as [l|e'] eqn:E; cbn; [discriminate|].
  intros [= ->]. now apply encode_entries_err_inv.
Qed.

Lemma sorted_entries_sorted (files : list path) (l : list Entry) :
  sorted_entries files = Ok l -> StronglySorted (key_le name) l.
Proof.
  unfold sorted_entries.
  destruct (encode_entries files) as [l'|e]; cbn; [|discriminate].
  intros [= <-]. apply sorted_by_sorted.
Qed.

(** ** The loop over subdirectories *)



Lemma nested_loop_err (subdirs : list path) (d p : path) :
  In d subdirs -> In p (rglob_png (snd d)) -> readable p = false ->
  forall result, exists e, nested_loop subdirs result = Err e.
Proof.
  induction subdirs as [|d' subdirs IH]; [intros []|].
  intros Hd Hp Hr result. cbn.
  destruct (nonempty (rglob_png (snd d'))) eqn:E.
  - destruct (sorted_entries (rglob_png (snd d'))) as [l|e] eqn:Hs; cbn; [|eauto].
    destruct Hd as [->|Hd]; [|now apply IH].
    destruct (sorted_entries_err _ _ Hp Hr) as [e He]. congruence.
  - destruct Hd as [->|Hd]; [|now apply IH].
    apply nonempty_false in E. rewrite E in Hp. destruct Hp.
Qed.

Lemma nested_loop_err_inv (subdirs : list path) (e : exn) :
  forall result,
    nested_loop subdirs result = Err e ->
    exists d q, In d subdirs /\ In q (rglob_png (snd d)) /\ read_bytes q = Err e.
Proof.
  induction subdirs as [|d subdirs IH]; intros result; cbn; [discriminate|].
  destruct (nonempty (rglob_png (snd d))).
  - destruct (sorted_entries (rglob_png (snd d))) as [l|e'] eqn:Hs; cbn.
    + intros H. destruct (IH _ H) as (d' & q & Hd' & Hq & Hr).
      exists d', q. auto.
    + intros [= ->]. destruct (sorted_entries_err_inv _ _ Hs) as (q & Hq & Hr).
      exists d, q. auto.
  - intros H. destruct (IH _ H) as (d' & q & Hd' & Hq & Hr).
    exists d', q. auto.
Qed.

(** ** process_directory: failures *)

Lemma process_directory_read_failure (entries : list path) (p : path) :
  discovered entries p -> readable p = false ->
  exists e, process_directory (Dir entries) = Err e.
Proof.
  intros Hd Hr. unfold process_directory.
  destruct (nonempty (glob_png entries) && negb (any_subdir_png (filter is_dir entries)))
    eqn:Hflat.
  - apply andb_true_iff in Hflat. destruct Hflat as [_ Hany].
    apply negb_true_iff in Hany.
    destruct Hd as [Hroot|(d & Hin & Hdir & Hp)].
    + destruct (sorted_entries_err _ _ Hroot Hr) as [e He]. rewrite He. cbn. eauto.
    + rewrite (proj1 (any_subdir_png_false entries) Hany d Hin Hdir) in Hp.
      destruct Hp.
  - destruct Hd as [Hroot|(d & Hin & Hdir & Hp)].
    + destruct (nested_loop (sorted_by fst (filter is_dir entries)) [])
        as [result|e]; cbn; [|eauto].
      assert (Hne : nonempty (glob_png entries) = true).
      { apply nonempty_true. intros E. rewrite E in Hroot. destruct Hroot. }
      rewrite Hne.
      destruct (sorted_entries_err _ _ Hroot Hr) as [e He]. rewrite He. cbn. eauto.
    + assert (Hin' : In d (sorted_by fst (filter is_dir entries))).
      { apply sorted_by_in. apply filter_In. now split. }
      destruct (nested_loop_err _ _ _ Hin' Hp Hr []) as [e He].
      rewrite He. cbn. eauto.
Qed.

Lemma process_directory_err_inv (entries : list path) (e : exn) :
  process_directory (Dir entries) = Err e ->
  exists q, discovered entries q /\ read_bytes q = Err e.
Proof.
  unfold process_directory.
  destruct (nonempty (glob_png entries) && negb (any_subdir_png (filter is_dir entries))).
  - destruct (sorted_entries (glob_png entries)) as [l|e'] eqn:Hs; cbn; [discriminate|].
    intros [= ->]. destruct (sorted_entries_err_inv _ _ Hs) as (q & Hq & Hr).
    exists q. split; [now left | exact Hr].
  - destruct (nested_loop (sorted_by fst (filter is_dir entries)) [])
      as [result|e'] eqn:Hn; cbn.
    + destruct (nonempty (glob_png entries)); cbn; [|discriminate].
      destruct (sorted_entries (glob_png entries)) as [l|e''] eqn:Hs; cbn;
        [discriminate|].
      intros [= ->]. destruct (sorted_entries_err_inv _ _ Hs) as (q & Hq & Hr).
      exists q. split; [now left | exact Hr].
    + intros [= ->].
      destruct (nested_loop_err_inv _ _ _ Hn) as (d & q & Hd & Hq & Hr).
      apply sorted_by_in in Hd. apply filter_In in Hd. destruct Hd as [Hd Hdir].
      exists q. split; [|exact Hr]. right. exists d. auto.
Qed.





(** ** main *)

Lemma resolve_found (w : world) (p : string) (n : node) :
  resolve w p = Some n <-> stat w p = Found n.
Proof.
  unfold resolve. destruct (stat w p); split; congruence.
Qed.

(** Past the two checks of lines 56 and 60 the scanner runs, and its result
    decides the rest. *)
Lemma main_with_dir (scan : node -> res dir_result) (w : world)
      (directory output : string) (entries : list path) :
  resolve w directory = Some (Dir entries) ->
  main_with scan w directory output
  = match scan (Dir entries) with
    | Err e => ([], Raised e)
    | Ok png_data =>
        if writable w output then
          ([WriteFile output (json_dumps 0 (output_document directory png_data));
            Print ("Processed " ++ string_of_nat (file_count png_data)
                     ++ " PNG files to " ++ output)],
           Returned)
        else ([], Raised (OSError output))
    end.
Proof.
  intros H. apply resolve_found in H.
  unfold main_with, path_exists, path_is_dir. rewrite H. reflexivity.
Qed.

Lemma main_dir (w : world) (directory output : string) (entries : list path) :
  resolve w directory = Some (Dir entries) ->
  main w directory output
  = match process_directory (Dir entries) with
    | Err e => ([], Raised e)
    | Ok png_data =>
        if writable w output then
          ([WriteFile output (json_dumps 0 (output_document directory png_data));
            Print ("Processed " ++ string_of_nat (file_count png_data)
                     ++ " PNG files to " ++ output)],
           Returned)
        else ([], Raised (OSError output))
    end.
Proof. apply main_with_dir. Qed.

Lemma main_read_failure (w : world) (directory output : string)
      (entries : list path) (p : path) :
  resolve w directory = Some (Dir entries) ->
  discovered entries p -> readable p = false ->
  exists e q,
    main w directory output = ([], Raised e) /\
    discovered entries q /\ read_bytes q = Err e.
Proof.
  intros Hres Hd Hr. rewrite (main_dir _ _ _ _ Hres).
  destruct (process_directory_read_failure _ _ Hd Hr) as [e He].
  rewrite He. destruct (process_directory_err_inv _ _ He) as (q & Hq & Hq').
  exists e, q. auto.
Qed.

(** C5 (as the code has it) - When [Path.exists] answers that the input path
    does not exist (no such entry, or a link whose target is missing), or the
    path exists without being a directory, [main] prints one diagnostic line,
    writes no file and returns normally: no exception reaches the caller.  No
    scan and no encoding takes place: the outcome is the same whatever the
    scanner of line 65 would do, were it one that always raises. *)
Theorem main_rejects_bad_directory (w : world) (directory output : string) :
  stat w directory = NoEntry \/
  stat w directory = Found BrokenLink \/
  (exists r c, stat w directory = Found (File r c)) ->
  exists msg,
    main w directory output = ([Print msg], Returned) /\
    (forall scan, main_with scan w directory output = ([Print msg], Returned)) /\
    writes (fst (main w directory output)) = [] /\
    (((stat w directory = NoEntry \/ stat w directory = Found BrokenLink) /\
      msg = "Error: Directory '" ++ directory ++ "' does not exist") \/
     ((exists r c, stat w directory = Found (File r c)) /\
      msg = "Error: '" ++ directory ++ "' is not a directory")).
Proof.
  intros H. unfold main, main_with, path_exists, path_is_dir.
  destruct H as [H|[H|(r & c & H)]]; rewrite H; eexists;
    (split; [reflexivity|]); (split; [reflexivity|]); (split; [reflexivity|]).
  - left. auto.
  - left. auto.
  - right. eauto.
Qed.

Lemma main_rejects_bad_directory_witness :
  exists msg,
    main (world_of "imgs" flat_tree) "missing" "out.json"
      = ([Print msg], Returned) /\
    (forall scan,
       main_with scan (world_of "imgs" flat_tree) "missing" "out.json"
       = ([Print msg], Returned)) /\
    writes (fst (main (world_of "imgs" flat_tree) "missing" "out.json")) = [] /\
    (((stat (world_of "imgs" flat_tree) "missing" = NoEntry \/
       stat (world_of "imgs" flat_tree) "missing" = Found BrokenLink) /\
      msg = "Error: Directory '" ++ "missing" ++ "' does not exist") \/
     ((exists r c, stat (world_of "imgs" flat_tree) "missing" = Found (File r c)) /\
      msg = "Error: '" ++ "missing" ++ "' is not a directory")).
Proof.
  apply (main_rejects_bad_directory (world_of "imgs" flat_tree) "missing" "out.json").
  left. reflexivity.
Defined.

(** A path whose name is longer than the system allows does not exist, yet
    [Path.exists] raises on it instead of answering, and the exception leaves
    [main]: no diagnostic is printed. *)
Lemma unqueryable_path_raises :
  String.length long_name = 300 /\
  resolve strict_world long_name = None /\
  main strict_world long_name "out.json" = ([], Raised (OSError long_name)) /\
  (forall msg,
     main strict_world long_name "out.json" <> ([Print msg], Returned)).
Proof.
  split; [reflexivity|]. split; [reflexivity|]. split; [reflexivity|].
  intros msg H. vm_compute in H. discriminate H.
Qed.

(** C6 - When the read of any discovered PNG fails, the exception of a failed
    read leaves [main]: the run ends before the output file is opened, so
    nothing is written and nothing is printed, and no file is skipped to let
    the run go on. *)
Theorem main_aborts_on_read_failure (w : world) (directory output : string)
        (entries : list path) (p : path) :
  resolve w directory = Some (Dir entries) ->
  discovered entries p ->
  readable p = false ->
  exists e q,
    main w directory output = ([], Raised e) /\
    writes (fst (main w directory output)) = [] /\
    discovered entries q /\ read_bytes q = Err e.
Proof.
  intros Hres Hd Hr.
  destruct (main_read_failure w directory output _ _ Hres Hd Hr)
    as (e & q & Hm & Hq & He).
  exists e, q. rewrite Hm. auto.
Qed.

Lemma main_aborts_on_read_failure_witness :
  exists e q,
    main (world_of "imgs" locked_tree) "imgs" "out.json" = ([], Raised e) /\
    writes (fst (main (world_of "imgs" locked_tree) "imgs" "out.json")) = [] /\
    discovered locked_tree q /\ read_bytes q = Err e.
Proof.
  apply (main_aborts_on_read_failure (world_of "imgs" locked_tree) "imgs" "out.json"
           locked_tree ("b.png", File false [])).
  - reflexivity.
  - left. simpl. right. left. reflexivity.
  - reflexivity.
Defined.

(** C9 - A directory whose own name ends in [.png] is matched like a file.
    Directly in the root it is one of the root matches, so the root counts as
    holding PNG files; beneath an immediate subdirectory it is one of that
    subdirectory's recursive matches, so the flat case is ruled out.  Either
    way it is discovered and opened for reading, which raises, and [main] ends
    with an exception without writing or printing anything. *)
Theorem png_named_directory_aborts (w : world) (directory output : string)
        (entries : list path) (dname : string) (children : list path) :
  resolve w directory = Some (Dir entries) ->
  is_png dname = true ->
  In (dname, Dir children) entries \/
  (exists sub, In sub entries /\ is_dir sub = true /\
               beneath (snd sub) (dname, Dir children)) ->
  discovered entries (dname, Dir children) /\
  (In (dname, Dir children) entries ->
     In (dname, Dir children) (glob_png entries) /\
     nonempty (glob_png entries) = true) /\
  (forall sub,
     In sub entries -> is_dir sub = true ->
     beneath (snd sub) (dname, Dir children) ->
     In (dname, Dir children) (rglob_png (snd sub)) /\
     flat_case entries = false) /\
  read_bytes (dname, Dir children) = Err (IsADirectoryError dname) /\
  exists e,
    process_directory (Dir entries) = Err e /\
    main w directory output = ([], Raised e) /\
    writes (fst (main w directory output)) = [].
Proof.
  intros Hres Hpng Hloc.
  assert (Hroot : In (dname, Dir children) entries ->
                  In (dname, Dir children) (glob_png entries) /\
                  nonempty (glob_png entries) = true).
  { intros Hin.
    assert (Hg : In (dname, Dir children) (glob_png entries))
      by (apply glob_png_in; now split).
    split; [exact Hg|]. apply nonempty_true. intros E. rewrite E in Hg. destruct Hg. }
  assert (Hsub : forall sub,
             In sub entries -> is_dir sub = true ->
             beneath (snd sub) (dname, Dir children) ->
             In (dname, Dir children) (rglob_png (snd sub)) /\
             flat_case entries = false).
  { intros sub Hin Hdir Hb.
    assert (Hg : In (dname, Dir children) (rglob_png (snd sub)))
      by (apply rglob_png_in; now split).
    split; [exact Hg|]. unfold flat_case.
    apply andb_false_iff. right. apply negb_false_iff.
    unfold any_subdir_png. apply existsb_exists. exists sub. split.
    - apply filter_In. now split.
    - apply nonempty_true. intros E. rewrite E in Hg. destruct Hg. }
  assert (Hd : discovered entries (dname, Dir children)).
  { destruct Hloc as [Hin|(sub & Hin & Hdir & Hb)].
    - left. now apply Hroot.
    - right. exists sub. split; [exact Hin|]. split; [exact Hdir|].
      now apply Hsub. }
  split; [exact Hd|]. split; [exact Hroot|]. split; [exact Hsub|].
  split; [reflexivity|].
  destruct (process_directory_read_failure _ _ Hd eq_refl) as [e He].
  exists e. split; [exact He|]. rewrite (main_dir _ _ _ _ Hres), He. now split.
Qed.

Lemma png_named_directory_aborts_witness :
  discovered png_dir_tree ("shots.png", Dir []) /\
  (In ("shots.png", Dir []) png_dir_tree ->
     In ("shots.png", Dir []) (glob_png png_dir_tree) /\
     nonempty (glob_png png_dir_tree) = true) /\
  (forall sub,
     In sub png_dir_tree -> is_dir sub = true ->
     beneath (snd sub) ("shots.png", Dir []) ->
     In ("shots.png", Dir []) (rglob_png (snd sub)) /\
     flat_case png_dir_tree = false) /\
  read_bytes ("shots.png", Dir []) = Err (IsADirectoryError "shots.png") /\
  exists e,
    process_directory (Dir png_dir_tree) = Err e /\
    main (world_of "imgs" png_dir_tree) "imgs" "out.json" = ([], Raised e) /\
    writes (fst (main (world_of "imgs" png_dir_tree) "imgs" "out.json")) = [].
Proof.
  apply (png_named_directory_aborts (world_of "imgs" png_dir_tree) "imgs" "out.json"
           png_dir_tree "shots.png" []).
  - reflexivity.
  - reflexivity.
  - left. simpl. right. left. reflexivity.
Defined.

(** ** dict *)

Section Dict.
Context {V : Type}.

Lemma keys_dict_set_in (k : string) (v : V) (d : list (string * V)) :
  In k (keys d) -> keys (dict_set k v d) = keys d.
Proof.
  induction d as [|[k' v'] d IH]; cbn; [intros []|].
  destruct (String.eqb k' k) eqn:E; [reflexivity|].
  intros [->|H]; [now rewrite String.eqb_refl in E|].
  cbn. f_equal. now apply IH.
Qed.

Lemma dict_set_fresh (k : string) (v : V) (d : list (string * V)) :
  ~ In k (keys d) -> dict_set k v d = (d ++ [(k, v)])%list.
Proof.
  induction d as [|[k' v'] d IH]; cbn; [reflexivity|].
  intros H. destruct (String.eqb k' k) eqn:E.
  - apply String.eqb_eq in E. tauto.
  - f_equal. apply IH. tauto.
Qed.

Lemma keys_dict_set (k : string) (v : V) (d : list (string * V)) :
  keys (dict_set k v d)
  = (keys d ++ (if existsb (String.eqb k) (keys d) then [] else [k]))%list.
Proof.
  destruct (existsb (String.eqb k) (keys d)) eqn:E.
  - rewrite app_nil_r. apply keys_dict_set_in.
    apply existsb_exists in E. destruct E as (k' & Hk' & E).
    apply String.eqb_eq in E. now subst.
  - rewrite dict_set_fresh; [unfold keys; now rewrite map_app|].
    intros H. assert (existsb (String.eqb k) (keys d) = true); [|congruence].
    apply existsb_exists. exists k. split; [exact H | apply String.eqb_refl].
Qed.




Lemma dict_set_values (P : V -> Prop) (k : string) (v : V) (d : list (string * V)) :
  P v -> Forall (fun kv => P (snd kv)) d ->
  Forall (fun kv => P (snd kv)) (dict_set k v d).
Proof.
  intros Hv. induction 1 as [|[k' v'] d Hkv Hd IH]; cbn.
  - now repeat constructor.
  - destruct (String.eqb k' k); constructor; auto.
Qed.
End Dict.

Lemma StronglySorted_remove {A : Type} (R : A -> A -> Prop) (l1 : list A)
      (x : A) (l2 : list A) :
  StronglySorted R (l1 ++ x :: l2) -> StronglySorted R (l1 ++ l2).
Proof.
  induction l1 as [|y l1 IH]; cbn; intros H; inversion H as [|? ? Hs Hf]; subst.
  - exact Hs.
  - constructor; [now apply IH|].
    rewrite Forall_app in *. destruct Hf as [H1 H2].
    inversion H2; subst. now split.
Qed.


(** ** The order of the nested result *)

Lemma nested_loop_order (subdirs : list path) :
  forall result result',
    nested_loop subdirs result = Ok result' ->
    StronglySorted str_le (keys result ++ map fst subdirs) ->
    Forall (fun kv => StronglySorted (key_le name) (snd kv)) result ->
    StronglySorted str_le (keys result') /\
    Forall (fun kv => StronglySorted (key_le name) (snd kv)) result'.
Proof.
  induction subdirs as [|sub subdirs IH]; intros result result'; cbn.
  - intros [= <-]. rewrite app_nil_r. auto.
  - intros Hloop Hk Hv. destruct (nonempty (rglob_png (snd sub))).
    + destruct (sorted_entries (rglob_png (snd sub))) as [l|e] eqn:Hs; cbn in Hloop;
        [|discriminate].
      apply (IH _ _ Hloop).
      * rewrite keys_dict_set.
        destruct (existsb (String.eqb (fst sub)) (keys result)).
        -- rewrite app_nil_r. eapply StronglySorted_remove; exact Hk.
        -- now rewrite <- app_assoc.
      * apply dict_set_values; [|exact Hv].
        eapply sorted_entries_sorted; exact Hs.
    + apply (IH _ _ Hloop); [|exact Hv].
      eapply StronglySorted_remove; exact Hk.
Qed.


(** ** The nested result *)

Lemma NoDup_map_filter {A B : Type} (f : A -> B) (g : A -> bool) (l : list A) :
  NoDup (map f l) -> NoDup (map f (filter g l)).
Proof.
  induction l as [|x l IH]; cbn; [auto|].
  intros ND. inversion ND as [|? ? Hx ND']; subst.
  destruct (g x); cbn; [|auto].
  constructor; [|auto].
  intros Hin. apply Hx. apply in_map_iff in Hin.
  destruct Hin as (y & Hy & Hin). apply filter_In in Hin.
  rewrite <- Hy. apply in_map. tauto.
Qed.







(** ** Independence of the enumeration order *)

Lemma filter_perm {A : Type} (f : A -> bool) (l l' : list A) :
  Permutation l l' -> Permutation (filter f l) (filter f l').
Proof.
  induction 1 as [|x l l' HP IH|x y l|l l' l'' HP1 IH1 HP2 IH2]; cbn.
  - constructor.
  - destruct (f x); [now constructor | exact IH].
  - destruct (f x), (f y); try reflexivity. apply perm_swap.
  - now transitivity (filter f l').
Qed.

Lemma forallb_perm {A : Type} (f : A -> bool) (l l' : list A) :
  Permutation l l' -> forallb f l = forallb f l'.
Proof.
  induction 1 as [|x l l' HP IH|x y l|l l' l'' HP1 IH1 HP2 IH2]; cbn.
  - reflexivity.
  - now rewrite IH.
  - destruct (f x), (f y); reflexivity.
  - congruence.
Qed.

Lemma existsb_perm {A : Type} (f : A -> bool) (l l' : list A) :
  Permutation l l' -> existsb f l = existsb f l'.
Proof.
  induction 1 as [|x l l' HP IH|x y l|l l' l'' HP1 IH1 HP2 IH2]; cbn.
  - reflexivity.
  - now rewrite IH.
  - destruct (f x), (f y); reflexivity.
  - congruence.
Qed.

Lemma forallb_false_ex {A : Type} (f : A -> bool) (l : list A) :
  forallb f l = false -> exists x, In x l /\ f x = false.
Proof.
  induction l as [|x l IH]; cbn; [discriminate|].
  destruct (f x) eqn:E; cbn.
  - intros H. destruct (IH H) as (y & Hy & Hf). eauto.
  - intros _. eauto.
Qed.

Lemma insert_by_map {A B : Type} (key : A -> string) (key' : B -> string)
      (f : A -> B) (x : A) (l : list A) :
  (forall a, key' (f a) = key a) ->
  insert_by key' (f x) (map f l) = map f (insert_by key x l).
Proof.
  intros Hk. induction l as [|y l IH]; cbn; [reflexivity|].
  rewrite !Hk. destruct (String.leb (key x) (key y)); cbn; [reflexivity|].
  now rewrite IH.
Qed.

Lemma sorted_by_map {A B : Type} (key : A -> string) (key' : B -> string)
      (f : A -> B) (l : list A) :
  (forall a, key' (f a) = key a) ->
  sorted_by key' (map f l) = map f (sorted_by key l).
Proof.
  intros Hk. induction l as [|x l IH]; cbn; [reflexivity|].
  fold (sorted_by key' (map f l)). fold (sorted_by key l).
  rewrite IH. now apply insert_by_map.
Qed.

Lemma item_canon (p : path) : item (canon_entry p) = item p.
Proof. destruct p as [k [r c|entries|entries|]]; reflexivity. Qed.

Lemma is_dir_canon (p : path) : is_dir (canon_entry p) = is_dir p.
Proof. destruct p as [k [r c|entries|entries|]]; reflexivity. Qed.

Lemma map_item_canon (l : list path) : map item (map canon_entry l) = map item l.
Proof. rewrite map_map. apply map_ext. apply item_canon. Qed.

Lemma glob_png_canon (l : list path) :
  glob_png (map canon_entry l) = map canon_entry (glob_png l).
Proof. unfold glob_png. now rewrite filter_map_swap. Qed.

Lemma canon_dir (entries : list path) :
  canon (Dir entries) = Dir (sorted_by fst (map canon_entry entries)).
Proof. reflexivity. Qed.

Lemma canon_listing_perm (entries : list path) :
  Permutation (sorted_by fst (map canon_entry entries)) (map canon_entry entries).
Proof. apply sorted_by_perm. Qed.

Lemma glob_items_canon (entries : list path) :
  Permutation (map item (glob_png (sorted_by fst (map canon_entry entries))))
              (map item (glob_png entries)).
Proof.
  rewrite <- (map_item_canon (glob_png entries)), <- glob_png_canon.
  apply Permutation_map. unfold glob_png. apply filter_perm, canon_listing_perm.
Qed.

(** Sorting the listings leaves the recursive matches the same up to order. *)
Lemma rglob_items_canon (n : node) :
  Permutation (map item (rglob_png (canon n))) (map item (rglob_png n)).
Proof.
  induction n as [r c|entries IH|entries _|] using node_ind'; try reflexivity.
  rewrite canon_dir. cbn [rglob_png]. rewrite !map_app.
  apply Permutation_app; [apply glob_items_canon|].
  transitivity
    (map item (flat_map (fun p => rglob_png (snd p)) (map canon_entry entries))).
  - apply Permutation_map. apply Permutation_flat_map, canon_listing_perm.
  - clear - IH. induction IH as [|p entries Hp _ IHe]; cbn; [constructor|].
    rewrite !map_app. now apply Permutation_app.
Qed.

Lemma has_png_canon (p : path) : has_png (canon_entry p) = has_png p.
Proof.
  unfold has_png. cbn [canon_entry snd].
  pose proof (Permutation_length (rglob_items_canon (snd p))) as H.
  rewrite !length_map in H.
  destruct (rglob_png (canon (snd p))), (rglob_png (snd p)); cbn in *; congruence.
Qed.

Lemma sorted_entries_items (files1 files2 : list path) :
  Permutation (map item files1) (map item files2) ->
  NoDup (map fst files1) ->
  erase (sorted_entries files1) = erase (sorted_entries files2).
Proof.
  intros HP ND.
  assert (Hr : forall files,
             forallb readable files
             = forallb (fun i => fst (snd i)) (map item files)).
  { intros files. induction files as [|f files IH]; cbn; [reflexivity|].
    now rewrite IH. }
  assert (He : forall files, map entry_of files = map entry_of_item (map item files)).
  { intros files. now rewrite map_map. }
  assert (Heq : forallb readable files1 = forallb readable files2).
  { rewrite !Hr. now apply forallb_perm. }
  destruct (forallb readable files1) eqn:H1; symmetry in Heq.
  - rewrite (sorted_entries_ok _ H1), (sorted_entries_ok _ Heq). cbn. f_equal.
    rewrite !He. apply sorted_by_perm_eq; [now apply Permutation_map|].
    rewrite !map_map. exact ND.
  - destruct (forallb_false_ex _ _ H1) as (p1 & Hp1 & Hq1).
    destruct (forallb_false_ex _ _ Heq) as (p2 & Hp2 & Hq2).
    destruct (sorted_entries_err _ _ Hp1 Hq1) as [e1 ->].
    destruct (sorted_entries_err _ _ Hp2 Hq2) as [e2 ->]. reflexivity.
Qed.

Lemma names_of_items (files : list path) : map fst files = map fst (map item files).
Proof. now rewrite map_map. Qed.

Lemma nested_loop_canon (subdirs : list path) :
  (forall sub, In sub subdirs -> NoDup (map fst (rglob_png (snd sub)))) ->
  forall acc,
    erase (nested_loop (map canon_entry subdirs) acc)
    = erase (nested_loop subdirs acc).
Proof.
  induction subdirs as [|sub subdirs IH]; intros ND acc; [reflexivity|].
  cbn [map nested_loop].
  assert (Hs : erase (sorted_entries (rglob_png (snd (canon_entry sub))))
               = erase (sorted_entries (rglob_png (snd sub)))).
  { symmetry. apply sorted_entries_items.
    - symmetry. apply rglob_items_canon.
    - apply ND. now left. }
  pose proof (has_png_canon sub) as Hh. unfold has_png in Hh. rewrite Hh.
  destruct (nonempty (rglob_png (snd sub))).
  - destruct (sorted_entries (rglob_png (snd (canon_entry sub)))) as [l|e];
      destruct (sorted_entries (rglob_png (snd sub))) as [l'|e'];
      cbn in Hs; try discriminate; cbn [bind].
    + injection Hs as ->. apply IH. intros s Hs'. apply ND. now right.
    + reflexivity.
  - apply IH. intros s Hs'. apply ND. now right.
Qed.

Lemma erase_bind {A B : Type} (m : res A) (k : A -> res B) :
  erase (bind m k)
  = match erase m with
    | Some a => erase (k a)
    | None => None
    end.
Proof. destruct m; reflexivity. Qed.

Lemma existsb_map {A B : Type} (f : B -> bool) (g : A -> B) (l : list A) :
  existsb f (map g l) = existsb (fun a => f (g a)) l.
Proof. induction l as [|x l IH]; cbn; [reflexivity|]. now rewrite IH. Qed.

Lemma existsb_pointwise {A : Type} (f g : A -> bool) (l : list A) :
  (forall a, f a = g a) -> existsb f l = existsb g l.
Proof.
  intros H. induction l as [|x l IH]; cbn; [reflexivity|]. now rewrite H, IH.
Qed.

Lemma subdirs_canon (entries : list path) :
  Permutation (filter is_dir (sorted_by fst (map canon_entry entries)))
              (map canon_entry (filter is_dir entries)).
Proof.
  transitivity (filter is_dir (map canon_entry entries)).
  - apply filter_perm, canon_listing_perm.
  - rewrite filter_map_swap.
    rewrite (filter_ext _ is_dir); [reflexivity|]. apply is_dir_canon.
Qed.

Lemma names_canon (entries : list path) :
  Permutation (map fst (sorted_by fst (map canon_entry entries))) (map fst entries).
Proof.
  rewrite canon_listing_perm, map_map. reflexivity.
Qed.

Lemma sorted_subdirs_canon (entries : list path) :
  NoDup (map fst entries) ->
  sorted_by fst (filter is_dir (sorted_by fst (map canon_entry entries)))
  = map canon_entry (sorted_by fst (filter is_dir entries)).
Proof.
  intros ND.
  rewrite <- (sorted_by_map fst fst canon_entry) by reflexivity.
  apply sorted_by_perm_eq; [apply subdirs_canon|].
  apply NoDup_map_filter.
  eapply Permutation_NoDup; [symmetry; apply names_canon | exact ND].
Qed.

Lemma any_subdir_png_canon (entries : list path) :
  any_subdir_png (filter is_dir (sorted_by fst (map canon_entry entries)))
  = any_subdir_png (filter is_dir entries).
Proof.
  unfold any_subdir_png.
  rewrite (existsb_perm _ _ _ (subdirs_canon entries)), existsb_map.
  apply existsb_pointwise. intros p. apply has_png_canon.
Qed.

Lemma nonempty_glob_canon (entries : list path) :
  nonempty (glob_png (sorted_by fst (map canon_entry entries)))
  = nonempty (glob_png entries).
Proof.
  pose proof (Permutation_length (glob_items_canon entries)) as H.
  rewrite !length_map in H.
  destruct (glob_png (sorted_by fst (map canon_entry entries))), (glob_png entries);
    cbn in *; congruence.
Qed.

(** Up to the identity of the exception, [process_directory] cannot tell a
    snapshot from its sorted form. *)
Lemma process_directory_canon (entries : list path) :
  distinct_names entries ->
  erase (process_directory (canon (Dir entries)))
  = erase (process_directory (Dir entries)).
Proof.
  intros [ND NDsub]. rewrite canon_dir. unfold process_directory.
  rewrite nonempty_glob_canon, any_subdir_png_canon.
  assert (Hroot : erase (sorted_entries (glob_png (sorted_by fst (map canon_entry entries))))
                  = erase (sorted_entries (glob_png entries))).
  { symmetry. apply sorted_entries_items.
    - symmetry. apply glob_items_canon.
    - unfold glob_png. now apply NoDup_map_filter. }
  assert (Hloop : erase (nested_loop
                           (sorted_by fst
                              (filter is_dir (sorted_by fst (map canon_entry entries))))
                           [])
                  = erase (nested_loop (sorted_by fst (filter is_dir entries)) [])).
  { rewrite (sorted_subdirs_canon _ ND). apply nested_loop_canon.
    intros sub Hsub. apply sorted_by_in in Hsub. apply filter_In in Hsub.
    now apply NDsub. }
  destruct (nonempty (glob_png entries) && negb (any_subdir_png (filter is_dir entries))).
  - rewrite !erase_bind, Hroot. reflexivity.
  - rewrite !erase_bind, Hloop.
    destruct (erase (nested_loop (sorted_by fst (filter is_dir entries)) []))
      as [result|]; [|reflexivity].
    rewrite !erase_bind.
    destruct (nonempty (glob_png entries)); [|reflexivity].
    rewrite !erase_bind, Hroot. reflexivity.
Qed.

Lemma in_canon_listing (entries : list path) (p : path) :
  In p (sorted_by fst (map canon_entry entries)) <->
  exists q, In q entries /\ canon_entry q = p.
Proof.
  rewrite sorted_by_in, in_map_iff. split; intros (q & H1 & H2); eauto.
Qed.

Lemma rglob_names_canon (n : node) :
  Permutation (map fst (rglob_png (canon n))) (map fst (rglob_png n)).
Proof.
  rewrite !names_of_items. apply Permutation_map, rglob_items_canon.
Qed.

(** Distinctness of names is a property of the contents, not of the order. *)
Lemma distinct_names_same (entries1 entries2 : list path) :
  same_contents entries1 entries2 ->
  distinct_names entries1 -> distinct_names entries2.
Proof.
  unfold same_contents. rewrite !canon_dir. intros [= Hc] [ND NDsub]. split.
  - eapply Permutation_NoDup; [|exact ND].
    rewrite <- (names_canon entries1), Hc. apply names_canon.
  - intros sub2 Hin Hdir.
    assert (H : In (canon_entry sub2) (sorted_by fst (map canon_entry entries1))).
    { rewrite Hc. apply in_canon_listing. eauto. }
    apply in_canon_listing in H. destruct H as (sub1 & Hin1 & Heq).
    assert (Hdir1 : is_dir sub1 = true).
    { rewrite <- is_dir_canon, Heq, is_dir_canon. exact Hdir. }
    eapply Permutation_NoDup; [apply rglob_names_canon|].
    change (canon (snd sub2)) with (snd (canon_entry sub2)). rewrite <- Heq.
    eapply Permutation_NoDup; [symmetry; apply rglob_names_canon|].
    now apply NDsub.
Qed.

Lemma process_directory_same_contents (entries1 entries2 : list path) :
  same_contents entries1 entries2 -> distinct_names entries1 ->
  erase (process_directory (Dir entries1)) = erase (process_directory (Dir entries2)).
Proof.
  intros Hs Hd.
  rewrite <- (process_directory_canon _ Hd).
  rewrite <- (process_directory_canon _ (distinct_names_same _ _ Hs Hd)).
  unfold same_contents in Hs. now rewrite Hs.
Qed.

Lemma main_events_erase (w : world) (directory output : string)
      (entries : list path) :
  resolve w directory = Some (Dir entries) ->
  fst (main w directory output)
  = match erase (process_directory (Dir entries)) with
    | Some png_data =>
        if writable w output then
          [WriteFile output (json_dumps 0 (output_document directory png_data));
           Print ("Processed " ++ string_of_nat (file_count png_data)
                    ++ " PNG files to " ++ output)]
        else []
    | None => []
    end.
Proof.
  intros Hres. rewrite (main_dir _ _ _ _ Hres).
  destruct (process_directory (Dir entries)); cbn [erase]; [|reflexivity].
  now destruct (writable w output).
Qed.

(** C8 (as the code has it) - Two runs that meet the same snapshot, listed
    in the same order, do exactly the same.  Two runs that meet the same
    contents listed in different orders print and write the same, byte for
    byte, provided no two entries of the root share a name and no two PNG
    paths beneath one immediate subdirectory share a base name. *)
Theorem main_output_deterministic (w1 w2 : world) (directory output : string)
        (entries1 entries2 : list path) :
  resolve w1 directory = Some (Dir entries1) ->
  resolve w2 directory = Some (Dir entries2) ->
  writable w1 output = writable w2 output ->
  (entries1 = entries2 ->
   main w1 directory output = main w2 directory output) /\
  (same_contents entries1 entries2 -> distinct_names entries1 ->
   fst (main w1 directory output) = fst (main w2 directory output)).
Proof.
  intros H1 H2 Hw. split.
  - intros <-. now rewrite (main_dir _ _ _ _ H1), (main_dir _ _ _ _ H2), Hw.
  - intros Hs Hd.
    rewrite (main_events_erase _ _ _ _ H1), (main_events_erase _ _ _ _ H2).
    now rewrite (process_directory_same_contents _ _ Hs Hd), Hw.
Qed.

Lemma main_output_deterministic_witness :
  fst (main (world_of "imgs" nested_tree) "imgs" "out.json")
  = fst (main (world_of "imgs" nested_tree_reordered) "imgs" "out.json").
Proof.
  apply (main_output_deterministic
           (world_of "imgs" nested_tree) (world_of "imgs" nested_tree_reordered)
           "imgs" "out.json" nested_tree nested_tree_reordered);
    try reflexivity.
  split.
  - repeat constructor; simpl; intuition discriminate.
  - intros sub [<-|[<-|[]]] Hdir; simpl; repeat constructor; simpl; intuition.
Defined.

(** Two listings of one tree in which [sub/a/x.png] and [sub/b/x.png] share
    their base name: the entries come out in enumeration order, and the two
    documents differ. *)
Lemma enumeration_order_changes_output :
  same_contents twins_ab twins_ba /\
  NoDup (map fst twins_ab) /\
  writes (fst (main (world_of "imgs" twins_ab) "imgs" "out.json"))
  <> writes (fst (main (world_of "imgs" twins_ba) "imgs" "out.json")).
Proof.
  split; [reflexivity|]. split.
  - repeat constructor. simpl. tauto.
  - intros H. vm_compute in H. discriminate H.
Qed.

(** ** Evaluations *)

(** The test vectors of RFC 4648, section 10. *)
Example b64encode_rfc_vectors :
  map (fun s => b64encode (list_byte_of_string s))
      [EmptyString; "f"; "fo"; "foo"; "foob"; "fooba"; "foobar"]
  = [EmptyString; "Zg=="; "Zm8="; "Zm9v"; "Zm9vYg=="; "Zm9vYmE="; "Zm9vYmFy"].
Proof. reflexivity. Qed.

Example path_name_samples :
  map path_name ["."; "/"; "imgs"; "/tmp/imgs/"; "a/./b"; "a/.."]
  = [EmptyString; EmptyString; "imgs"; "imgs"; "b"; ".."].
Proof. reflexivity. Qed.

Example is_png_samples :
  map is_png ["a.png"; ".png"; "png"; "a.PNG"; "a.png.txt"]
  = [true; true; false; false; false].
Proof. reflexivity. Qed.

Example process_directory_flat_tree :
  process_directory (Dir flat_tree)
  = Ok (RList [mkEntry "a.png" "data:image/png;base64,QQ==";
               mkEntry "b.png" "data:image/png;base64,Qg=="]).
Proof. reflexivity. Qed.

Example process_directory_nested_tree :
  process_directory (Dir nested_tree)
  = Ok (RDict [("sub", [mkEntry "x.png" "data:image/png;base64,WA=="]);
               ("_root", [mkEntry "r.png" "data:image/png;base64,Ug=="])]).
Proof. reflexivity. Qed.

Example process_directory_locked_tree :
  process_directory (Dir locked_tree) = Err (PermissionError "b.png").
Proof. reflexivity. Qed.

Example process_directory_twins :
  process_directory (Dir twins_ab)
  = Ok (RDict [("sub", [mkEntry "x.png" "data:image/png;base64,QQ==";
                        mkEntry "x.png" "data:image/png;base64,Qg=="])]) /\
  process_directory (Dir twins_ba)
  = Ok (RDict [("sub", [mkEntry "x.png" "data:image/png;base64,Qg==";
                        mkEntry "x.png" "data:image/png;base64,QQ=="])]).
Proof. split; reflexivity. Qed.

Example main_summary_line :
  snd (main (world_of "imgs" nested_tree) "imgs" "out.json") = Returned /\
  flat_map (fun ev => match ev with Print l => [l] | WriteFile _ _ => [] end)
    (fst (main (world_of "imgs" nested_tree) "imgs" "out.json"))
  = ["Processed 2 PNG files to out.json"].
Proof. split; reflexivity. Qed.

(** * Further properties of the scanner and the driver *)

(** ** What is discovered *)


Lemma discovered_is_png (entries : list path) (p : path) :
  discovered entries p -> is_png (fst p) = true.
Proof.
  intros [H|(sub & _ & _ & H)].
  - now apply glob_png_in in H.
  - now apply rglob_png_in in H.
Qed.

(** ** Success *)

Lemma encode_entries_inv (files : list path) (l : list Entry) :
  encode_entries files = Ok l ->
  forallb readable files = true /\ l = map entry_of files.
Proof.
  revert l. induction files as [|f files IH]; cbn; intros l.
  - intros [= <-]. auto.
  - unfold encode_png_to_data_uri.
    destruct (read_bytes f) as [c|e] eqn:Hf; cbn; [|discriminate].
    destruct (encode_entries files) as [l'|e]; cbn; [|discriminate].
    intros [= <-]. destruct (IH _ eq_refl) as [Hr ->].
    assert (Hrf : readable f = true).
    { destruct (readable f) eqn:E; [reflexivity|].
      destruct (read_bytes_unreadable _ E) as [e He]. congruence. }
    rewrite Hrf, Hr. split; [reflexivity|].
    unfold entry_of. rewrite (read_bytes_readable _ Hrf) in Hf.
    injection Hf as <-. reflexivity.
Qed.

Lemma sorted_entries_inv (files : list path) (l : list Entry) :
  sorted_entries files = Ok l ->
  forallb readable files = true /\ l = sorted_by name (map entry_of files).
Proof.
  unfold sorted_entries.
  destruct (encode_entries files) as [l'|e] eqn:E; cbn; [|discriminate].
  intros [= <-]. destruct (encode_entries_inv _ _ E) as [Hr ->]. auto.
Qed.



(** ** Where the entries of a result come from *)

Lemma nested_loop_values (Q : list Entry -> Prop) (subdirs : list path) :
  (forall sub,
     In sub subdirs -> rglob_png (snd sub) <> [] ->
     forallb readable (rglob_png (snd sub)) = true ->
     Q (snd (bucket_of sub))) ->
  forall acc res,
    nested_loop subdirs acc = Ok res ->
    Forall (fun kv => Q (snd kv)) acc ->
    Forall (fun kv => Q (snd kv)) res.
Proof.
  induction subdirs as [|sub subdirs IH]; intros HQ acc res; cbn.
  - now intros [= <-].
  - assert (HQ' : forall s, In s subdirs -> rglob_png (snd s) <> [] ->
                            forallb readable (rglob_png (snd s)) = true ->
                            Q (snd (bucket_of s))).
    { intros s Hs. apply HQ. now right. }
    destruct (nonempty (rglob_png (snd sub))) eqn:Hne.
    + destruct (sorted_entries (rglob_png (snd sub))) as [l|e] eqn:Hs; cbn [bind];
        [|discriminate].
      intros Hloop Hacc. apply (IH HQ' _ _ Hloop).
      apply dict_set_values; [|exact Hacc].
      destruct (sorted_entries_inv _ _ Hs) as [Hr ->].
      apply (HQ sub); [now left | now apply nonempty_true | exact Hr].
    + intros Hloop Hacc. exact (IH HQ' _ _ Hloop Hacc).
Qed.

Lemma process_directory_values (Q : list Entry -> Prop) (entries : list path) :
  (glob_png entries <> [] -> forallb readable (glob_png entries) = true ->
   Q (root_bucket entries)) ->
  (forall sub,
     In sub entries -> is_dir sub = true -> rglob_png (snd sub) <> [] ->
     forallb readable (rglob_png (snd sub)) = true ->
     Q (snd (bucket_of sub))) ->
  forall r,
    process_directory (Dir entries) = Ok r ->
    match r with
    | RList l => l = [] \/ Q l
    | RDict d => Forall (fun kv => Q (snd kv)) d
    end.
Proof.
  intros Hroot Hsub r. unfold process_directory.
  destruct (nonempty (glob_png entries) && negb (any_subdir_png (filter is_dir entries)))
    eqn:Hflat.
  - apply andb_true_iff in Hflat. destruct Hflat as [Hne _].
    destruct (sorted_entries (glob_png entries)) as [l|e] eqn:Hs; cbn [bind];
      [|discriminate].
    intros [= <-]. right. destruct (sorted_entries_inv _ _ Hs) as [Hr ->].
    apply Hroot; [now apply nonempty_true | exact Hr].
  - destruct (nested_loop (sorted_by fst (filter is_dir entries)) [])
      as [res|e] eqn:Hloop; cbn [bind]; [|discriminate].
    assert (Hres : Forall (fun kv => Q (snd kv)) res).
    { apply (nested_loop_values Q (sorted_by fst (filter is_dir entries)))
        with (acc := []); [|exact Hloop|constructor].
      intros sub Hin. apply sorted_by_in in Hin. apply filter_In in Hin.
      now apply Hsub. }
    destruct (nonempty (glob_png entries)) eqn:Hne; cbn [bind].
    + destruct (sorted_entries (glob_png entries)) as [l|e] eqn:Hs; cbn [bind];
        [|discriminate].
      destruct (sorted_entries_inv _ _ Hs) as [Hr ->].
      assert (Hall : Forall (fun kv => Q (snd kv))
                       (dict_set root_key
                          (sorted_by name (map entry_of (glob_png entries))) res)).
      { apply dict_set_values; [|exact Hres].
        apply Hroot; [now apply nonempty_true | exact Hr]. }
      destruct (nonempty (dict_set root_key _ res)); intros [= <-]; auto.
    + destruct (nonempty res); intros [= <-]; auto.
Qed.

Lemma bucket_entry_source (files : list path) (e : Entry) :
  forallb readable files = true ->
  In e (sorted_by name (map entry_of files)) ->
  exists p content,
    In p files /\ snd p = File true content /\
    e = mkEntry (fst p) (data_uri_prefix ++ b64encode content).
Proof.
  intros Hr He. apply sorted_by_in in He. apply in_map_iff in He.
  destruct He as (p & <- & Hp). rewrite forallb_forall in Hr.
  specialize (Hr p Hp). unfold readable in Hr. unfold entry_of, content_of.
  destruct (snd p) as [[|] c| | |] eqn:E; try discriminate.
  exists p, c. auto.
Qed.

(** X3 - Every entry of a result stems from a discovered regular file that
    could be read: its name is the base name of that file and ends in
    [.png], and its data is the data URI of the file's whole content, from
    which the content is recovered by dropping the prefix and decoding. *)
Theorem result_entries_sound (entries : list path) (r : dir_result) (e : Entry) :
  process_directory (Dir entries) = Ok r ->
  In e (entries_of_result r) ->
  exists p content,
    discovered entries p /\
    snd p = File true content /\
    name e = fst p /\
    is_png (name e) = true /\
    data e = data_uri_prefix ++ b64encode content /\
    (exists payload,
       strip_prefix data_uri_prefix (data e) = Some payload /\
       b64decode payload = Some content).
Proof.
  intros Hr He.
  set (Q := fun l : list Entry =>
              forall e, In e l ->
                exists p content,
                  discovered entries p /\ snd p = File true content /\
                  e = mkEntry (fst p) (data_uri_prefix ++ b64encode content)).
  assert (HQ : exists p content,
             discovered entries p /\ snd p = File true content /\
             e = mkEntry (fst p) (data_uri_prefix ++ b64encode content)).
  { pose proof (process_directory_values Q entries) as H.
    assert (H1 : glob_png entries <> [] ->
                 forallb readable (glob_png entries) = true ->
                 Q (root_bucket entries)).
    { intros _ Hread e' He'.
      destruct (bucket_entry_source _ _ Hread He') as (p & c & Hp & Hc & ->).
      exists p, c. split; [now left | auto]. }
    assert (H2 : forall sub,
               In sub entries -> is_dir sub = true -> rglob_png (snd sub) <> [] ->
               forallb readable (rglob_png (snd sub)) = true ->
               Q (snd (bucket_of sub))).
    { intros sub Hin Hdir _ Hread e' He'.
      destruct (bucket_entry_source _ _ Hread He') as (p & c & Hp & Hc & ->).
      exists p, c. split; [right; exists sub; auto | auto]. }
    specialize (H H1 H2 r Hr). destruct r as [l|d]; cbn in He.
    - destruct H as [->|H]; [destruct He | now apply H].
    - apply in_flat_map in He. destruct He as (kv & Hkv & He).
      rewrite Forall_forall in H. exact (H kv Hkv e He). }
  destruct HQ as (p & c & Hd & Hc & ->). exists p, c. cbn [name data].
  split; [exact Hd|]. split; [exact Hc|]. split; [reflexivity|].
  split; [eapply discovered_is_png; exact Hd|].
  split; [reflexivity|]. exists (b64encode c).
  split; [apply strip_prefix_app | apply b64decode_b64encode].
Qed.

Lemma result_entries_sound_witness :
  exists p content,
    discovered nested_tree p /\
    snd p = File true content /\
    name (entry_of ("x.png", png "X")) = fst p /\
    is_png (name (entry_of ("x.png", png "X"))) = true /\
    data (entry_of ("x.png", png "X")) = data_uri_prefix ++ b64encode content /\
    (exists payload,
       strip_prefix data_uri_prefix (data (entry_of ("x.png", png "X")))
       = Some payload /\
       b64decode payload = Some content).
Proof.
  apply (result_entries_sound nested_tree
           (RDict [("sub", [entry_of ("x.png", png "X")]);
                   (root_key, [entry_of ("r.png", png "R")])])).
  - reflexivity.
  - simpl. left. reflexivity.
Defined.

(** ** The shape of a result *)

Lemma dict_set_nonempty {V : Type} (k : string) (v : V) (d : list (string * V)) :
  nonempty (dict_set k v d) = true.
Proof. destruct d as [|[k' v'] d]; cbn; [reflexivity|]. now destruct (String.eqb k' k). Qed.

Lemma nested_loop_nonempty (subdirs : list path) :
  forall acc res,
    nested_loop subdirs acc = Ok res ->
    res = [] ->
    acc = [] /\ (forall sub, In sub subdirs -> rglob_png (snd sub) = []).
Proof.
  induction subdirs as [|sub subdirs IH]; intros acc res; cbn.
  - intros [= <-] ->. split; [reflexivity | intros ? []].
  - destruct (nonempty (rglob_png (snd sub))) eqn:Hne.
    + destruct (sorted_entries (rglob_png (snd sub))) as [l|e]; cbn [bind];
        [|discriminate].
      intros Hloop Hres. destruct (IH _ _ Hloop Hres) as [Hacc _].
      pose proof (dict_set_nonempty (fst sub) l acc) as H.
      rewrite Hacc in H. discriminate.
    + intros Hloop Hres. destruct (IH _ _ Hloop Hres) as [Hacc Hsub].
      split; [exact Hacc|]. intros s [<-|Hs]; [now apply nonempty_false | auto].
Qed.

(** A result in list form is the bucket of the root, and then no immediate
    subdirectory holds a PNG. *)
Lemma process_directory_list_inv (entries : list path) (l : list Entry) :
  process_directory (Dir entries) = Ok (RList l) ->
  l = root_bucket entries /\
  forallb readable (glob_png entries) = true /\
  (forall sub, In sub entries -> is_dir sub = true -> rglob_png (snd sub) = []).
Proof.
  unfold process_directory.
  destruct (nonempty (glob_png entries) && negb (any_subdir_png (filter is_dir entries)))
    eqn:Hflat.
  - apply andb_true_iff in Hflat. destruct Hflat as [_ Hany].
    apply negb_true_iff in Hany.
    destruct (sorted_entries (glob_png entries)) as [l'|e] eqn:Hs; cbn [bind];
      [|discriminate].
    intros [= <-]. destruct (sorted_entries_inv _ _ Hs) as [Hr ->].
    split; [reflexivity|]. split; [exact Hr|].
    now apply any_subdir_png_false.
  - destruct (nested_loop (sorted_by fst (filter is_dir entries)) [])
      as [res|e] eqn:Hloop; cbn [bind]; [|discriminate].
    destruct (nonempty (glob_png entries)) eqn:Hne; cbn [bind].
    + destruct (sorted_entries (glob_png entries)) as [l'|e]; cbn [bind];
        [|discriminate].
      rewrite dict_set_nonempty. discriminate.
    + destruct (nonempty res) eqn:Hres; [discriminate|].
      intros [= <-]. apply nonempty_false in Hne, Hres.
      unfold root_bucket. rewrite Hne. split; [reflexivity|].
      split; [reflexivity|].
      destruct (nested_loop_nonempty _ _ _ Hloop Hres) as [_ Hsub].
      intros sub Hin Hdir. apply Hsub. apply sorted_by_in. apply filter_In. auto.
Qed.



Lemma entry_names (files : list path) : map name (map entry_of files) = map fst files.
Proof. rewrite map_map. reflexivity. Qed.

(** X5 - A result in list form names exactly the root-level PNG files, each
    once: with distinct names in the root directory no name occurs twice. *)
Theorem flat_result_names (entries : list path) (l : list Entry) :
  NoDup (map fst entries) ->
  process_directory (Dir entries) = Ok (RList l) ->
  Permutation (map name l) (map fst (glob_png entries)) /\
  NoDup (map name l).
Proof.
  intros ND Hr. destruct (process_directory_list_inv _ _ Hr) as (-> & _ & _).
  assert (HP : Permutation (map name (root_bucket entries))
                           (map fst (glob_png entries))).
  { unfold root_bucket. rewrite <- entry_names.
    apply Permutation_map, sorted_by_perm. }
  split; [exact HP|].
  eapply Permutation_NoDup; [symmetry; exact HP|].
  unfold glob_png. now apply NoDup_map_filter.
Qed.

Lemma flat_result_names_witness :
  Permutation (map name (root_bucket flat_tree)) (map fst (glob_png flat_tree)) /\
  NoDup (map name (root_bucket flat_tree)).
Proof.
  apply (flat_result_names flat_tree (root_bucket flat_tree)).
  - repeat constructor; simpl; intuition discriminate.
  - reflexivity.
Defined.

Lemma sorted_by_nonempty {A : Type} (key : A -> string) (l : list A) :
  l <> [] -> sorted_by key l <> [].
Proof.
  intros Hl E. apply Hl. apply Permutation_nil.
  rewrite <- E. apply sorted_by_perm.
Qed.

(** X6 - A mapping returned by [process_directory] is never empty and never
    maps a key to an empty list. *)
Theorem nested_result_nonempty (entries : list path) (d : list (string * list Entry)) :
  process_directory (Dir entries) = Ok (RDict d) ->
  d <> [] /\ Forall (fun kv => snd kv <> []) d.
Proof.
  intros Hr. split.
  - revert Hr. unfold process_directory.
    destruct (nonempty (glob_png entries) && negb (any_subdir_png (filter is_dir entries))).
    { destruct (sorted_entries (glob_png entries)); cbn; discriminate. }
    destruct (nested_loop (sorted_by fst (filter is_dir entries)) []) as [res|e];
      cbn [bind]; [|discriminate].
    destruct (nonempty (glob_png entries)); cbn [bind].
    + destruct (sorted_entries (glob_png entries)) as [l|e]; cbn [bind];
        [|discriminate].
      destruct (nonempty (dict_set root_key l res)) eqn:E; [|discriminate].
      intros [= <-]. now apply nonempty_true.
    + destruct (nonempty res) eqn:E; [|discriminate].
      intros [= <-]. now apply nonempty_true.
  - apply (process_directory_values (fun l => l <> []) entries) in Hr; [exact Hr| |].
    + intros Hne _. unfold root_bucket. apply sorted_by_nonempty.
      destruct (glob_png entries); [contradiction | discriminate].
    + intros sub _ _ Hne _. cbn. apply sorted_by_nonempty.
      destruct (rglob_png (snd sub)); [contradiction | discriminate].
Qed.

Lemma nested_result_nonempty_witness :
  [("sub", [entry_of ("x.png", png "X")]);
   (root_key, [entry_of ("r.png", png "R")])] <> [] /\
  Forall (fun kv : string * list Entry => snd kv <> [])
    [("sub", [entry_of ("x.png", png "X")]);
     (root_key, [entry_of ("r.png", png "R")])].
Proof.
  apply (nested_result_nonempty nested_tree). reflexivity.
Defined.

(** ** Files that are not PNGs *)


Lemma is_dir_prune (p : path) : is_dir (prune_entry p) = is_dir p.
Proof. destruct p as [k [r c|entries|entries|]]; reflexivity. Qed.










(** ** Subdirectories without PNGs *)

Lemma insert_by_front {A : Type} (key : A -> string) (x : A) (l : list A) :
  Forall (key_le key x) l -> insert_by key x l = x :: l.
Proof.
  destruct l as [|y l]; [reflexivity|]. intros H. inversion H as [|? ? Hxy _]; subst.
  cbn. unfold key_le, str_le in Hxy. now rewrite Hxy.
Qed.

Lemma filter_insert_by {A : Type} (key : A -> string) (f : A -> bool)
      (x : A) (l : list A) :
  StronglySorted (key_le key) l ->
  filter f (insert_by key x l)
  = if f x then insert_by key x (filter f l) else filter f l.
Proof.
  induction 1 as [|y l Hs IH Hy]; cbn.
  - now destruct (f x).
  - destruct (String.leb (key x) (key y)) eqn:Hxy; cbn.
    + destruct (f x) eqn:Hx; [|reflexivity].
      destruct (f y) eqn:Hfy; cbn; [now rewrite Hxy|].
      symmetry. apply insert_by_front.
      apply Forall_forall. intros z Hz. apply filter_In in Hz.
      rewrite Forall_forall in Hy.
      eapply str_le_trans; [exact Hxy | apply Hy; tauto].
    + rewrite IH. destruct (f y), (f x); cbn; rewrite ?Hxy; reflexivity.
Qed.

Lemma filter_sorted_by {A : Type} (key : A -> string) (f : A -> bool) (l : list A) :
  filter f (sorted_by key l) = sorted_by key (filter f l).
Proof.
  induction l as [|x l IH]; cbn; [reflexivity|].
  fold (sorted_by key l). rewrite filter_insert_by by apply sorted_by_sorted.
  rewrite IH. now destruct (f x).
Qed.




(** ** The data URI determines the content *)

(** X9 - Two readable files get the same data URI exactly when their
    contents are equal; the name of a file plays no part in its data. *)
Theorem data_uri_injective (n1 n2 : string) (c1 c2 : list byte) :
  encode_png_to_data_uri (n1, File true c1)
  = encode_png_to_data_uri (n2, File true c2)
  <-> c1 = c2.
Proof.
  split; [|now intros ->]. cbn. intros [= H].
  assert (Hs : Some (b64encode c1) = Some (b64encode c2)).
  { rewrite <- (strip_prefix_app data_uri_prefix (b64encode c1)).
    rewrite <- (strip_prefix_app data_uri_prefix (b64encode c2)).
    unfold data_uri_prefix. now rewrite H. }
  injection Hs as Hs.
  pose proof (b64decode_b64encode c1) as H1. rewrite Hs in H1.
  rewrite b64decode_b64encode in H1. now injection H1.
Qed.

(** ** The driver *)


Lemma main_no_dir (w : world) (directory output : string) :
  (forall entries, resolve w directory <> Some (Dir entries)) ->
  writes (fst (main w directory output)) = [].
Proof.
  intros H. unfold main, main_with, path_exists, path_is_dir.
  unfold resolve in H.
  destruct (stat w directory) as [| |[r c|es|es|]]; try reflexivity.
  exfalso. now apply (H es).
Qed.


(** ** The summary count *)








(** ** Matching names *)

Lemma string_length_app (s t : string) :
  String.length (s ++ t) = String.length s + String.length t.
Proof. induction s as [|c s IH]; cbn; [reflexivity|]. now rewrite IH. Qed.

Lemma substring_all (s : string) : substring 0 (String.length s) s = s.
Proof. induction s as [|c s IH]; cbn; [reflexivity|]. now rewrite IH. Qed.

Lemma substring_skip_app (s t : string) (k : nat) :
  substring (String.length s) k (s ++ t) = substring 0 k t.
Proof. induction s as [|c s IH]; cbn; [reflexivity | exact IH]. Qed.

Lemma substring_split (s : string) :
  forall i, i <= String.length s ->
    s = substring 0 i s ++ substring i (String.length s - i) s.
Proof.
  induction s as [|c s IH]; intros [|i] Hi; cbn in *; try reflexivity.
  - now rewrite substring_all.
  - rewrite <- IH by lia. reflexivity.
Qed.

(** X13 - A name matches [*.png] exactly when it is some text, possibly
    empty, followed by the four characters [.png] in lower case. *)
Theorem is_png_iff_suffix (fname : string) :
  is_png fname = true <-> exists stem, fname = stem ++ ".png".
Proof.
  unfold is_png. split.
  - intros H. apply andb_true_iff in H. destruct H as [Hlen Heq].
    apply Nat.leb_le in Hlen. apply String.eqb_eq in Heq.
    exists (substring 0 (String.length fname - 4) fname).
    rewrite (substring_split fname (String.length fname - 4)) at 1 by lia.
    f_equal. rewrite <- Heq. f_equal. lia.
  - intros [stem ->]. rewrite string_length_app. cbn [String.length].
    replace (String.length stem + 4 - 4) with (String.length stem) by lia.
    rewrite substring_skip_app. apply andb_true_iff. split.
    + apply Nat.leb_le. lia.
    + reflexivity.
Qed.

(** ** The key of the document *)

Lemma split_on_cons (sep : ascii) (s : string) :
  exists part parts, split_on sep s = part :: parts.
Proof.
  induction s as [|c s (part & parts & IH)]; cbn; [eauto|].
  destruct (Ascii.eqb c sep); [eauto|]. rewrite IH. eauto.
Qed.

Lemma split_on_app (sep : ascii) (a b : string) :
  split_on sep (a ++ String sep b) = (split_on sep a ++ split_on sep b)%list.
Proof.
  induction a as [|c a IH]; cbn.
  - now rewrite Ascii.eqb_refl.
  - destruct (Ascii.eqb c sep); [now rewrite IH|].
    rewrite IH. destruct (split_on_cons sep a) as (part & parts & ->). reflexivity.
Qed.

Lemma split_on_simple (sep : ascii) (s : string) :
  mem_char sep s = false -> split_on sep s = [s].
Proof.
  induction s as [|c s IH]; cbn; [reflexivity|].
  intros H. apply orb_false_iff in H. destruct H as [Hc Hs].
  rewrite Hc, (IH Hs). reflexivity.
Qed.

Lemma split_on_parts (sep : ascii) (s : string) :
  Forall (fun part => mem_char sep part = false) (split_on sep s).
Proof.
  induction s as [|c s IH]; cbn; [now repeat constructor|].
  destruct (Ascii.eqb c sep) eqn:Hc; [now constructor|].
  destruct (split_on sep s) as [|part parts]; [now repeat constructor; cbn; rewrite Hc|].
  inversion IH; subst. constructor; [|assumption]. cbn. now rewrite Hc.
Qed.

Lemma last_in {A : Type} (l : list A) (d : A) : l <> [] -> In (last l d) l.
Proof.
  induction l as [|x [|y l] IH]; [contradiction | now left |].
  intros _. right. apply IH. discriminate.
Qed.

(** X14 - The key of the output document never contains a slash and is
    never the component [.]: it is either empty or one plain component of
    the directory argument. *)
Theorem path_name_plain (directory : string) :
  mem_char "/" (path_name directory) = false /\
  path_name directory <> "." /\
  (path_name directory = EmptyString \/
   In (path_name directory) (split_on "/" directory)).
Proof.
  unfold path_name, path_parts.
  set (keep := fun part => negb (is_empty part) && negb (String.eqb part ".")).
  destruct (filter keep (split_on "/" directory)) as [|x l] eqn:E.
  - cbn. split; [reflexivity|]. split; [discriminate | now left].
  - rewrite <- E.
    assert (Hin : In (last (filter keep (split_on "/" directory)) EmptyString)
                     (filter keep (split_on "/" directory))).
    { apply last_in. rewrite E. discriminate. }
    apply filter_In in Hin. destruct Hin as [Hin Hk].
    pose proof (split_on_parts "/" directory) as Hp.
    rewrite Forall_forall in Hp. split; [now apply Hp|]. split; [|now right].
    intros Heq. rewrite Heq in Hk. discriminate Hk.
Qed.

(** X15 - For a plain last component, one that is not empty, not [.] and
    holds no slash, the key is that component: after any parent path, with
    or without a trailing slash, and on its own. *)
Theorem path_name_child (parent child : string) :
  mem_char "/" child = false ->
  child <> EmptyString ->
  child <> "." ->
  path_name (parent ++ String "/" child) = child /\
  path_name (parent ++ String "/" (child ++ "/")) = child /\
  path_name child = child.
Proof.
  intros Hs He Hd.
  assert (Hk : negb (is_empty child) && negb (String.eqb child ".") = true).
  { apply andb_true_iff. split.
    - destruct child; [contradiction | reflexivity].
    - apply negb_true_iff. now apply String.eqb_neq. }
  unfold path_name, path_parts. split; [|split].
  - rewrite split_on_app, (split_on_simple _ _ Hs), filter_app. cbn [filter].
    rewrite Hk. apply last_last.
  - rewrite split_on_app.
    change (child ++ "/") with (child ++ String "/" EmptyString).
    rewrite split_on_app, (split_on_simple _ _ Hs), !filter_app. cbn.
    rewrite Hk. apply last_last.
  - rewrite (split_on_simple _ _ Hs). cbn [filter]. now rewrite Hk.
Qed.

Lemma path_name_child_witness :
  path_name ("/data" ++ String "/" "imgs") = "imgs" /\
  path_name ("/data" ++ String "/" ("imgs" ++ "/")) = "imgs" /\
  path_name "imgs" = "imgs".
Proof.
  apply (path_name_child "/data" "imgs"); [reflexivity | discriminate | discriminate].
Defined.

(** ** The written text *)

Lemma json_ind' (P : json -> Prop) :
  (forall s, P (JStr s)) ->
  (forall items, Forall P items -> P (JList items)) ->
  (forall members, Forall (fun kv => P (snd kv)) members -> P (JDict members)) ->
  forall j, P j.
Proof.
  intros HS HL HD. fix IH 1. intros [s|items|members].
  - apply HS.
  - apply HL. induction items as [|j items IHi]; constructor; [apply IH | exact IHi].
  - apply HD. induction members as [|[k j] members IHm]; constructor;
      [apply IH | exact IHm].
Qed.

Lemma printable_app (a b : string) :
  printable (a ++ b) = printable a && printable b.
Proof.
  induction a as [|c a IH]; cbn; [reflexivity|]. now rewrite IH, andb_assoc.
Qed.

Lemma json_escape_char_printable (c : ascii) :
  printable (json_escape_char c) = true.
Proof. destruct c as [[] [] [] [] [] [] [] []]; reflexivity. Qed.

Lemma json_string_printable (s : string) : printable (json_string s) = true.
Proof.
  unfold json_string. cbn [printable]. rewrite printable_app. cbn.
  rewrite andb_true_r.
  induction s as [|c s IH]; cbn; [reflexivity|].
  now rewrite printable_app, json_escape_char_printable, IH.
Qed.

Lemma newline_indent_printable (level : nat) :
  printable (newline_indent level) = true.
Proof.
  unfold newline_indent. cbn [printable].
  induction (2 * level) as [|n IH]; cbn in *; [reflexivity | exact IH].
Qed.

Lemma join_printable (sep : string) (l : list string) :
  printable sep = true ->
  Forall (fun x => printable x = true) l ->
  printable (join sep l) = true.
Proof.
  intros Hsep. induction 1 as [|x l Hx Hl IH]; [reflexivity|].
  destruct l as [|y l]; [exact Hx|].
  change (join sep (x :: y :: l)) with (x ++ sep ++ join sep (y :: l)).
  now rewrite !printable_app, Hx, Hsep, IH.
Qed.

Lemma json_dumps_printable (j : json) :
  forall level, printable (json_dumps level j) = true.
Proof.
  induction j as [s|items IH|members IH] using json_ind'; intros level.
  - apply json_string_printable.
  - destruct items as [|j items]; [reflexivity|].
    change (json_dumps level (JList (j :: items)))
      with ("[" ++ newline_indent (S level)
                ++ join ("," ++ newline_indent (S level))
                     (map (json_dumps (S level)) (j :: items))
                ++ newline_indent level ++ "]").
    rewrite !printable_app, !newline_indent_printable, join_printable;
      [reflexivity | |].
    + rewrite printable_app, newline_indent_printable. reflexivity.
    + apply Forall_map. eapply Forall_impl; [|exact IH]. intros a Ha. apply Ha.
  - destruct members as [|kv members]; [reflexivity|].
    change (json_dumps level (JDict (kv :: members)))
      with ("{" ++ newline_indent (S level)
                ++ join ("," ++ newline_indent (S level))
                     (map (fun kv =>
                             match kv with
                             | (k, v) =>
                                 json_string k ++ ": " ++ json_dumps (S level) v
                             end) (kv :: members))
                ++ newline_indent level ++ "}").
    rewrite !printable_app, !newline_indent_printable, join_printable;
      [reflexivity | |].
    + rewrite printable_app, newline_indent_printable. reflexivity.
    + apply Forall_map. eapply Forall_impl; [|exact IH].
      intros [k v] Hv. cbn in Hv.
      now rewrite !printable_app, json_string_printable, Hv.
Qed.

(** X16 - Whatever the names and contents, every text [main] writes consists
    of printable ASCII characters and line feeds only: characters outside
    that range reach the file in escaped form. *)
Theorem written_text_is_ascii (w : world) (directory output : string) :
  Forall (fun ft => printable (snd ft) = true)
    (writes (fst (main w directory output))).
Proof.
  destruct (resolve w directory) as [[r c|entries|es|]|] eqn:Hres;
    try (rewrite main_no_dir; [constructor | rewrite Hres; congruence]).
  rewrite (main_dir _ _ _ _ Hres).
  destruct (process_directory (Dir entries)) as [png_data|e]; [|cbn; constructor].
  destruct (writable w output); [|cbn; constructor].
  cbn [fst writes flat_map app]. constructor; [|constructor].
  apply json_dumps_printable.
Qed.

Lemma json_unescape_char (c : ascii) (rest : string) :
  json_unescape (json_escape_char c ++ rest)
  = match json_unescape rest with
    | Some t => Some (String c t)
    | None => None
    end.
Proof. destruct c as [[] [] [] [] [] [] [] []]; reflexivity. Qed.

Lemma string_app_assoc (a b c : string) : (a ++ b) ++ c = a ++ (b ++ c).
Proof. induction a as [|x a IH]; cbn; [reflexivity|]. now rewrite IH. Qed.

Lemma string_app_cancel_r (a b t : string) : a ++ t = b ++ t -> a = b.
Proof.
  revert b. induction a as [|x a IH]; intros [|y b] H; cbn in H.
  - reflexivity.
  - apply (f_equal String.length) in H. cbn in H.
    rewrite string_length_app in H. lia.
  - apply (f_equal String.length) in H. cbn in H.
    rewrite string_length_app in H. lia.
  - injection H as -> H. f_equal. now apply IH.
Qed.

Lemma json_unescape_app (s t : string) :
  json_unescape (json_escape s ++ t)
  = match json_unescape t with
    | Some u => Some (s ++ u)
    | None => None
    end.
Proof.
  induction s as [|c s IH]; cbn.
  - now destruct (json_unescape t).
  - rewrite string_app_assoc, json_unescape_char, IH.
    now destruct (json_unescape t).
Qed.

(** X17 - The escaping of names and data loses nothing: reading an escaped
    string back gives the original string, so distinct strings are written
    as distinct JSON strings. *)
Theorem json_escape_roundtrip (s1 s2 : string) :
  json_unescape (json_escape s1) = Some s1 /\
  (json_string s1 = json_string s2 <-> s1 = s2).
Proof.
  split.
  - induction s1 as [|c s IH]; cbn; [reflexivity|].
    now rewrite json_unescape_char, IH.
  - split; [|now intros ->].
    unfold json_string. intros [= Heq].
    apply (f_equal json_unescape) in Heq.
    rewrite !json_unescape_app in Heq. cbn in Heq. injection Heq as Heq.
    eapply string_app_cancel_r. exact Heq.
Qed.

(** ** Entries that share a name *)

Lemma sorted_by_same_key {A : Type} (key : A -> string) (l : list A) (k : string) :
  Forall (fun x => key x = k) l -> sorted_by key l = l.
Proof.
  induction 1 as [|x l Hx Hl IH]; cbn; [reflexivity|].
  fold (sorted_by key l). rewrite IH. apply insert_by_front.
  eapply Forall_impl; [|exact Hl].
  intros y Hy. unfold key_le. rewrite Hx, Hy. apply str_le_refl.
Qed.

(** X19 - Sorting is by name alone and stable: in every sorted bucket the
    entries that bear one and the same name stand in the order in which
    their files were discovered. *)
Theorem sorted_entries_stable (files : list path) (l : list Entry) (n : string) :
  sorted_entries files = Ok l ->
  filter (fun e => String.eqb (name e) n) l
  = filter (fun e => String.eqb (name e) n) (map entry_of files).
Proof.
  intros H. destruct (sorted_entries_inv _ _ H) as [_ ->].
  rewrite filter_sorted_by. apply (sorted_by_same_key name _ n).
  apply Forall_forall. intros e He. apply filter_In in He.
  now apply String.eqb_eq.
Qed.

Lemma sorted_entries_stable_witness :
  filter (fun e => String.eqb (name e) "x.png")
    [entry_of ("x.png", png "A"); entry_of ("x.png", png "B")]
  = filter (fun e => String.eqb (name e) "x.png")
      (map entry_of
         (rglob_png (Dir [("a", Dir [("x.png", png "A")]);
                          ("b", Dir [("x.png", png "B")])]))).
Proof.
  apply (sorted_entries_stable
           (rglob_png (Dir [("a", Dir [("x.png", png "A")]);
                            ("b", Dir [("x.png", png "B")])]))).
  reflexivity.
Defined.

(** ** Further evaluations *)

Example prune_cluttered_tree :
  prune (Dir cluttered_tree)
  = Dir [("sub", Dir [("x.png", png "X")]); ("r.png", png "R"); ("empty", Dir [])].
Proof. reflexivity. Qed.

Example process_directory_cluttered_tree :
  process_directory (Dir cluttered_tree) = process_directory (Dir nested_tree).
Proof. reflexivity. Qed.

Example json_string_escapes :
  json_string (String "009" (String "233" "a/b"))
  = String quote_char ("\t\u00e9a/b" ++ String quote_char EmptyString).
Proof. reflexivity. Qed.

(** * The nested result, its keys and its entries *)










(** * The key of the output document *)

Lemma path_parts_app (a b : string) :
  path_parts (a ++ String "/" b) = (path_parts a ++ path_parts b)%list.
Proof. unfold path_parts. now rewrite split_on_app, filter_app. Qed.

Lemma path_parts_plain (child : string) :
  mem_char "/" child = false -> child <> EmptyString -> child <> "." ->
  path_parts child = [child].
Proof.
  intros Hs He Hd. unfold path_parts. rewrite (split_on_simple _ _ Hs).
  cbn [filter].
  replace (negb (is_empty child)) with true by (now destruct child).
  replace (String.eqb child ".") with false
    by (symmetry; now apply String.eqb_neq).
  reflexivity.
Qed.

Lemma path_parts_no_component (t : string) :
  no_component t -> path_parts t = [].
Proof.
  induction 1 as [| |t Ht IH|t Ht IH]; try reflexivity.
  - change (String "/" t) with (EmptyString ++ String "/" t).
    rewrite path_parts_app, IH. reflexivity.
  - change (String "." (String "/" t)) with ("." ++ String "/" t).
    rewrite path_parts_app, IH. reflexivity.
Qed.

(** C10 - The single key of the output document is the final component of
    the directory argument, as [Path(...).name] gives it: the last component
    that is neither empty nor [.], whatever slashes and dots follow it, and
    whatever parent path precedes it.  An argument that names no component,
    such as [.] or [/], which are existing directories, has the empty string
    as its final component, and the document written then has the empty
    string as its key. *)
Theorem output_key_is_final_component (w : world) (directory output : string)
        (entries : list path) (r : dir_result) :
  resolve w directory = Some (Dir entries) ->
  process_directory (Dir entries) = Ok r ->
  writable w output = true ->
  exists key,
    writes (fst (main w directory output))
    = [(output, json_dumps 0 (JDict [(key, json_of_result r)]))] /\
    (forall parent child rest,
       mem_char "/" child = false -> child <> EmptyString -> child <> "." ->
       no_component rest ->
       directory = child \/
       directory = child ++ String "/" rest \/
       directory = parent ++ String "/" child \/
       directory = parent ++ String "/" (child ++ String "/" rest) ->
       key = child) /\
    (no_component directory -> key = EmptyString) /\
    (directory = "." \/ directory = "/" -> key = EmptyString).
Proof.
  intros Hres Hr Hw. exists (path_name directory). split; [|split; [|split]].
  - rewrite (main_dir _ _ _ _ Hres), Hr, Hw. reflexivity.
  - intros parent child rest Hs He Hd Hrest Hform. unfold path_name.
    pose proof (path_parts_plain _ Hs He Hd) as Hc.
    pose proof (path_parts_no_component _ Hrest) as Hn.
    destruct Hform as [-> | [-> | [-> | ->]]].
    + now rewrite Hc.
    + now rewrite path_parts_app, Hc, Hn.
    + rewrite path_parts_app, Hc. apply last_last.
    + rewrite !path_parts_app, Hc, Hn, app_nil_r. apply last_last.
  - intros Hn. unfold path_name. now rewrite (path_parts_no_component _ Hn).
  - intros [->| ->]; reflexivity.
Qed.

Lemma output_key_is_final_component_witness :
  exists key,
    writes (fst (main (world_of "." flat_tree) "." "out.json"))
    = [("out.json",
        json_dumps 0 (JDict [(key, json_of_result (RList (root_bucket flat_tree)))]))]
    /\
    (forall parent child rest,
       mem_char "/" child = false -> child <> EmptyString -> child <> "." ->
       no_component rest ->
       "." = child \/
       "." = child ++ String "/" rest \/
       "." = parent ++ String "/" child \/
       "." = parent ++ String "/" (child ++ String "/" rest) ->
       key = child) /\
    (no_component "." -> key = EmptyString) /\
    ("." = "." \/ "." = "/" -> key = EmptyString).
Proof.
  apply (output_key_is_final_component (world_of "." flat_tree) "." "out.json"
           flat_tree (RList (root_bucket flat_tree))); reflexivity.
Defined.

(** For an ordinary argument the key is the name of the directory. *)
Example output_key_of_plain_directory :
  exists key,
    writes (fst (main (world_of "/data/imgs/" flat_tree) "/data/imgs/" "out.json"))
    = [("out.json",
        json_dumps 0 (JDict [(key, json_of_result (RList (root_bucket flat_tree)))]))]
    /\ key = "imgs".
Proof.
  exists "imgs". split; reflexivity.
Qed.

(** * Evaluations on directories that cannot be listed and on broken links *)

(** The PNG inside a subdirectory that cannot be listed is not seen. *)
Example locked_subdir_is_skipped :
  process_directory
    (Dir [("sub", LockedDir [("x.png", png "X")]); ("r.png", png "R")])
  = Ok (RList [mkEntry "r.png" "data:image/png;base64,Ug=="]).
Proof. reflexivity. Qed.

Example broken_link_raises :
  process_directory (Dir [("a.png", png "A"); ("gone.png", BrokenLink)])
  = Err (FileNotFoundError "gone.png").
Proof. reflexivity. Qed.

Example locked_root_raises :
  main (mkWorld (fun _ => Found (LockedDir flat_tree)) (fun _ => true))
       "imgs" "out.json"
  = ([], Raised (PermissionError EmptyString)).
Proof. reflexivity. Qed.

Example broken_root_is_missing :
  main (mkWorld (fun _ => Found BrokenLink) (fun _ => true)) "imgs" "out.json"
  = ([Print "Error: Directory 'imgs' does not exist"], Returned).
Proof. reflexivity. Qed.
